(** * A shallow embedding of the Google-Drive spreadsheet logger

    Source: [pytorch_lightning/loggers/gdrive.py] (classes [Table],
    [MetricsWorkSheet], [GDriveLogger]) and [tests/loggers/test_gdrive.py].

    The Python objects are embedded as records, the remote worksheet and the
    remote drive as explicit stores that are threaded through every call, and
    Python exceptions as a [result] value that is returned together with the
    state reached when the exception was raised. *)

From Stdlib Require Import Ascii.
From stdpp Require Import gmap strings list fin_maps pretty.

Set Warnings "-clear-no-such-hyp".

Open Scope string_scope.
Open Scope Z_scope.
Open Scope list_scope.

(** ** Python values, exceptions and dictionaries *)

(** The values that flow through the logger.  The logger never computes on a
    number, so a plain Python number (int or float) is kept as an integer
    payload.  [VTensor] is a one-element [torch.Tensor]; its payload is what
    [.item()] returns. *)
Inductive value :=
| VNone
| VNum (n : Z)
| VStr (s : string)
| VTensor (item : Z).

#[global] Instance value_eq_dec : EqDecision value.
Proof. solve_decision. Defined.

Inductive exn :=
| KeyError (key : string)
| ValueError
| TypeError
| AttributeError (attr : string)
| IndexError
| NetworkError.

Inductive result (A : Type) :=
| Ok (a : A)
| Raise (e : exn).
Arguments Ok {A} a.
Arguments Raise {A} e.

(** [x is None] *)
Definition is_None (v : value) : bool :=
  match v with VNone => true | _ => false end.

(** Python truthiness, as used by [if hr:]. *)
Definition truthy (v : value) : bool :=
  match v with
  | VNone => false
  | VNum n => negb (n =? 0)
  | VStr s => negb (bool_decide (s = ""))
  | VTensor n => negb (n =? 0)
  end.

(** [v.item() if isinstance(v, torch.Tensor) else v] (lines 42-43). *)
Definition item_of (v : value) : value :=
  match v with VTensor n => VNum n | _ => v end.

(** A Python [dict] with string keys keeps its insertion order, and the order
    decides the header of a table, so a dictionary is an association list.
    Keys are unique in every dictionary Python can build. *)
Definition dict := list (string * value).

Definition dict_keys (d : dict) : list string := d.*1.

Fixpoint dict_get (k : string) (d : dict) : option value :=
  match d with
  | [] => None
  | (k', v) :: d' => if decide (k = k') then Some v else dict_get k d'
  end.

(** [d[k] = v]: an existing key keeps its position, a new key goes last. *)
Fixpoint dict_set (k : string) (v : value) (d : dict) : dict :=
  match d with
  | [] => [(k, v)]
  | (k', v') :: d' =>
      if decide (k = k') then (k', v) :: d' else (k', v') :: dict_set k v d'
  end.

(** [d.pop(k)]: the value and the dictionary without the key, or [None]
    where Python raises [KeyError]. *)
Definition dict_pop (k : string) (d : dict) : option (value * dict) :=
  match dict_get k d with
  | None => None
  | Some v => Some (v, filter (λ kv, kv.1 ≠ k) d)
  end.

(** [frozenset(metrics.keys())] *)
Definition schema_of (d : dict) : gset string := list_to_set (dict_keys d).

(** ** The remote worksheet (the [gspread.Worksheet] collaborator)

    The worksheet lives on the remote service.  Its grid maps (row, column)
    to the stored value; every method the logger calls on it is a request to
    the service and is recorded, in order, in [calls].  The grid is
    unbounded: the sheet is taken to have room for every cell the logger
    addresses. *)

Record Cell := mkCell { cell_row : Z; cell_col : Z; cell_value : value }.

#[global] Instance Cell_eq_dec : EqDecision Cell.
Proof. solve_decision. Defined.

Inductive WsCall :=
| CallAcell (r c : Z)
| CallRowValues (r : Z)
| CallRange (r1 c1 r2 c2 : Z)
| CallUpdate (cells : list Cell)
| CallUpdateCells (cells : list Cell).

Definition is_write (c : WsCall) : bool :=
  match c with
  | CallUpdate _ | CallUpdateCells _ => true
  | _ => false
  end.

Record Worksheet := mkWorksheet {
  grid : gmap (Z * Z) value;
  calls : list WsCall
}.

Definition record_call (c : WsCall) (ws : Worksheet) : Worksheet :=
  {| grid := grid ws; calls := calls ws ++ [c] |}.

(** An unset cell reads as the empty string. *)
Definition cell_at (g : gmap (Z * Z) value) (r c : Z) : value :=
  default (VStr "") (g !! (r, c)).

Definition blank (v : value) : bool :=
  match v with VNone => true | VStr s => bool_decide (s = "") | _ => false end.

(** The last column of row [r] that holds a non-blank value (0 if none). *)
Definition last_col (g : gmap (Z * Z) value) (r : Z) : Z :=
  map_fold (λ rc v acc,
              if bool_decide (rc.1 = r) && negb (blank v)
              then Z.max rc.2 acc else acc) 0 g.

Definition write_cell (g : gmap (Z * Z) value) (c : Cell) : gmap (Z * Z) value :=
  <[(cell_row c, cell_col c) := cell_value c]> g.

Definition write_cells (g : gmap (Z * Z) value) (cs : list Cell)
  : gmap (Z * Z) value :=
  foldl write_cell g cs.

(** The text the service shows for a stored value: a number is shown in
    decimal notation, an empty cell as the empty string. *)
Definition cell_text (v : value) : string :=
  match v with
  | VNone => ""
  | VNum n => pretty n
  | VStr s => s
  | VTensor n => pretty n
  end.

(** [ws.acell(label).value], the label given as (row, column): the text of
    the cell, a [str] also when the cell holds a number. *)
Definition ws_acell (r c : Z) (ws : Worksheet) : Worksheet * value :=
  (record_call (CallAcell r c) ws, VStr (cell_text (cell_at (grid ws) r c))).

(** [ws.row_values(r)]: the values of row [r] from column 1 up to the last
    non-blank cell; blank cells in between are part of the list.  The logger
    looks at the length of the list only. *)
Definition ws_row_values (r : Z) (ws : Worksheet) : Worksheet * list value :=
  (record_call (CallRowValues r) ws,
   cell_at (grid ws) r <$> seqZ 1 (last_col (grid ws) r)).

(** [ws.range(r1, c1, r2, c2)]: one cell handle per cell of the rectangle,
    row by row, each carrying the value currently stored remotely.

    This is the request as the service answers it.  The client library turns
    the four numbers into two A1 labels before it sends anything and raises
    [IncorrectCellLabel] for a row or a column below 1; that refusal is not
    part of this function.  [accepted] below singles out the requests with
    coordinates from 1 on, and the statements about calls that create a
    table and return are made for calls whose requests are among them. *)
Definition ws_range (r1 c1 r2 c2 : Z) (ws : Worksheet) : Worksheet * list Cell :=
  (record_call (CallRange r1 c1 r2 c2) ws,
   r ← seqZ r1 (r2 - r1 + 1);
   (λ c, mkCell r c (cell_at (grid ws) r c)) <$> seqZ c1 (c2 - c1 + 1)).

(** [ws.update(range, values, ...)], the range given as its cells. *)
Definition ws_update (cs : list Cell) (ws : Worksheet) : Worksheet :=
  {| grid := write_cells (grid ws) cs; calls := calls ws ++ [CallUpdate cs] |}.

(** What the network does to one batched write: it goes through, or it fails
    after the service has applied some prefix of the cells. *)
Inductive net :=
| NetOk
| NetFail (applied : nat).

(** [ws.update_cells(cells, ...)] *)
Definition ws_update_cells (n : net) (cs : list Cell) (ws : Worksheet)
  : Worksheet * result unit :=
  match n with
  | NetOk =>
      ({| grid := write_cells (grid ws) cs;
          calls := calls ws ++ [CallUpdateCells cs] |}, Ok tt)
  | NetFail k =>
      ({| grid := write_cells (grid ws) (take k cs);
          calls := calls ws ++ [CallUpdateCells cs] |}, Raise NetworkError)
  end.

(** ** class Table *)

(** [_metrics_worksheet] is a reference to the one remote worksheet; the
    worksheet is therefore passed to, and returned by, each method. *)
Record Table := mkTable {
  cells_buffer : list Cell;
  _col_offset : Z;
  _last_step : Z;
  _metrics_header : list string
}.

#[global] Instance Table_eq_dec : EqDecision Table.
Proof. solve_decision. Defined.

Definition set_cells_buffer (b : list Cell) (t : Table) : Table :=
  mkTable b (_col_offset t) (_last_step t) (_metrics_header t).

Definition set_last_step (r : Z) (t : Table) : Table :=
  mkTable (cells_buffer t) (_col_offset t) r (_metrics_header t).

(** The [for] loop of [Table.update] (lines 40-45) over the zipped pairs;
    [buf] is [self.cells_buffer].  A missing key stops the loop with the
    buffer as it is at that point. *)
Fixpoint update_loop (row : dict) (pairs : list (string * Cell))
    (buf : list Cell) : list Cell * result unit :=
  match pairs with
  | [] => (buf, Ok tt)
  | (_metric_name, _cell) :: rest =>
      match dict_get _metric_name row with
      | None => (buf, Raise (KeyError _metric_name))
      | Some v =>
          let v := item_of v in
          let _cell := mkCell (cell_row _cell) (cell_col _cell) v in
          update_loop row rest (buf ++ [_cell])
      end
  end.

(** [Table.update(self, row)] (lines 36-46). *)
Definition Table_update (row : dict) (ws : Worksheet) (t : Table)
  : Worksheet * Table * result unit :=
  let '(ws1, cell_list) :=
    ws_range (_last_step t) (_col_offset t) (_last_step t)
      (_col_offset t + Z.of_nat (length (_metrics_header t)) - 1) ws in
  let '(buf, r) :=
    update_loop row (zip (_metrics_header t) cell_list) (cells_buffer t) in
  match r with
  | Raise e => (ws1, set_cells_buffer buf t, Raise e)
  | Ok _ =>
      (ws1, set_last_step (_last_step t + 1) (set_cells_buffer buf t), Ok tt)
  end.

(** [Table.__init__(self, ws, header_row, metrics)] (lines 19-34). *)
Definition Table_init (ws : Worksheet) (header_row : Z) (metrics : dict)
  : Worksheet * result Table :=
  let '(ws1, header) := ws_row_values header_row ws in
  let col_offset :=
    match header with
    | [] => 1
    | _ => Z.of_nat (length header) + 2
    end in
  match dict_pop "step" metrics with
  | None => (ws1, Raise (KeyError "step"))
  | Some (step, _metrics) =>
      let metrics_header :=
        (if is_None step then [] else ["step"]) ++ dict_keys _metrics in
      let self := mkTable [] col_offset header_row metrics_header in
      let '(ws2, self, r) :=
        Table_update ((λ _h, (_h, VStr _h)) <$> metrics_header) ws1 self in
      match r with
      | Raise e => (ws2, Raise e)
      | Ok _ => (ws2, Ok self)
      end
  end.

(** ** [int(...)] on the values the logger converts *)

Definition digit_of (a : ascii) : option Z :=
  let n := Z.of_nat (nat_of_ascii a) in
  if (48 <=? n) && (n <=? 57) then Some (n - 48) else None.

Fixpoint digits_to_Z (acc : Z) (s : string) : option Z :=
  match s with
  | EmptyString => Some acc
  | String a s' =>
      match digit_of a with
      | Some d => digits_to_Z (10 * acc + d) s'
      | None => None
      end
  end.

(** The characters [int] skips around a number: tab, line feed, vertical
    tab, form feed, carriage return and space. *)
Definition is_space (a : ascii) : bool :=
  let n := Z.of_nat (nat_of_ascii a) in
  ((9 <=? n) && (n <=? 13)) || (n =? 32).

Fixpoint lstrip (s : string) : string :=
  match s with
  | EmptyString => EmptyString
  | String a s' => if is_space a then lstrip s' else s
  end.

Fixpoint rstrip (s : string) : string :=
  match s with
  | EmptyString => EmptyString
  | String a s' =>
      match rstrip s' with
      | EmptyString => if is_space a then EmptyString else String a EmptyString
      | r => String a r
      end
  end.

(** [s.split(sep)] for a one-character separator. *)
Fixpoint split_on (sep : ascii) (s : string) : list string :=
  match s with
  | EmptyString => [EmptyString]
  | String a s' =>
      if decide (a = sep) then EmptyString :: split_on sep s'
      else match split_on sep s' with
           | [] => [String a EmptyString]
           | p :: ps => String a p :: ps
           end
  end.

(** A group of digits: at least one character, digits only. *)
Definition digit_group (g : string) : bool :=
  match g with
  | EmptyString => false
  | _ => match digits_to_Z 0 g with Some _ => true | None => false end
  end.

(** The number after the sign: groups of digits with one underscore between
    two groups. *)
Definition unsigned_of_string (s : string) : option Z :=
  let groups := split_on "_" s in
  if forallb digit_group groups then digits_to_Z 0 (String.concat "" groups)
  else None.

(** [int(s)] for a string of ASCII characters: white space around the
    number is skipped, then come an optional sign and the digits, which
    single underscores may group.  Anything else is [None], where Python
    raises [ValueError].  Python also reads the digits and the white space
    of other scripts; this function answers [None] for every string with a
    character beyond ASCII, so the statements that conclude [ValueError]
    from it are made for ASCII text ([is_ascii]).  The cap interpreters
    released after this code put on the number of digits is not modelled. *)
Definition int_of_string (s : string) : option Z :=
  match rstrip (lstrip s) with
  | EmptyString => None
  | String a s' =>
      if decide (a = "-"%char) then Z.opp <$> unsigned_of_string s'
      else if decide (a = "+"%char) then unsigned_of_string s'
      else unsigned_of_string (String a s')
  end.

Fixpoint is_ascii (s : string) : bool :=
  match s with
  | EmptyString => true
  | String a s' => (Z.of_nat (nat_of_ascii a) <? 128) && is_ascii s'
  end.

(** [int(v)] *)
Definition py_int (v : value) : result Z :=
  match v with
  | VNone => Raise TypeError
  | VNum n => Ok n
  | VTensor n => Ok n
  | VStr s =>
      match int_of_string s with
      | Some n => Ok n
      | None => Raise ValueError
      end
  end.

(** ** class MetricsWorkSheet *)

(** [Table] instances are mutable objects that the router reaches through
    references.  [tables] is the object store (an address is an index into
    it, and objects are never freed); [_schema_to_table] is the dictionary,
    in insertion order, from a frozen key-set to the address of its table.
    [rank] is the attribute the [rank_zero_only] decorator reads. *)
Record MetricsWorkSheet := mkMetricsWorkSheet {
  _ws : Worksheet;
  tables : list Table;
  _schema_to_table : list (gset string * nat);
  _header_row : Z;
  rank : Z
}.

Definition set_ws (ws : Worksheet) (self : MetricsWorkSheet) : MetricsWorkSheet :=
  mkMetricsWorkSheet ws (tables self) (_schema_to_table self)
    (_header_row self) (rank self).

Definition set_tables (ts : list Table) (self : MetricsWorkSheet)
  : MetricsWorkSheet :=
  mkMetricsWorkSheet (_ws self) ts (_schema_to_table self)
    (_header_row self) (rank self).

Definition set_schema_to_table (d : list (gset string * nat))
    (self : MetricsWorkSheet) : MetricsWorkSheet :=
  mkMetricsWorkSheet (_ws self) (tables self) d (_header_row self) (rank self).

(** [self._schema_to_table[fs]], [None] when [fs not in self._schema_to_table]. *)
Fixpoint schema_get (fs : gset string) (d : list (gset string * nat))
  : option nat :=
  match d with
  | [] => None
  | (fs', a) :: d' => if decide (fs = fs') then Some a else schema_get fs d'
  end.

(** [MetricsWorkSheet.__init__(self, worksheet)] (lines 53-60); [rank0] is the
    rank the host framework gave the process. *)
Definition MetricsWorkSheet_init (rank0 : Z) (worksheet : Worksheet)
  : Worksheet * result MetricsWorkSheet :=
  let '(ws1, hr) := ws_acell 1 2 worksheet in
  match (if truthy hr then py_int hr else Ok 3) with
  | Raise e => (ws1, Raise e)
  | Ok header_row =>
      let ws2 :=
        ws_update [mkCell 1 1 (VStr "header_row"); mkCell 1 2 (VNum header_row)]
          ws1 in
      (ws2, Ok (mkMetricsWorkSheet ws2 [] [] header_row rank0))
  end.

(** [_create_table_from_keys] (lines 62-63). *)
Definition _create_table_from_keys (metrics : dict) (self : MetricsWorkSheet)
  : Worksheet * result Table :=
  Table_init (_ws self) (_header_row self) metrics.

(** [_get_table_for_set_of_metrics] (lines 65-69); the result is the address
    of the table. *)
Definition _get_table_for_set_of_metrics (metrics : dict)
    (self : MetricsWorkSheet) : MetricsWorkSheet * result nat :=
  let fs := schema_of metrics in
  match schema_get fs (_schema_to_table self) with
  | Some a => (self, Ok a)
  | None =>
      let '(ws1, r) := _create_table_from_keys metrics self in
      match r with
      | Raise e => (set_ws ws1 self, Raise e)
      | Ok t =>
          let a := length (tables self) in
          (set_schema_to_table (_schema_to_table self ++ [(fs, a)])
             (set_tables (tables self ++ [t]) (set_ws ws1 self)),
           Ok a)
      end
  end.

(** [{**metrics, 'step': step}] (line 73). *)
Definition full_metrics (metrics : dict) (step : value) : dict :=
  dict_set "step" step metrics.

(** The body of [log_metrics] (lines 73-75), before decoration.  An address
    without an object cannot arise in Python; the model answers
    [AttributeError] there. *)
Definition log_metrics_wrapped (metrics : dict) (step : value)
    (self : MetricsWorkSheet) : MetricsWorkSheet * result unit :=
  let full_metrics := full_metrics metrics step in
  let '(self1, r) := _get_table_for_set_of_metrics full_metrics self in
  match r with
  | Raise e => (self1, Raise e)
  | Ok table_rc =>
      match tables self1 !! table_rc with
      | None => (self1, Raise (AttributeError "update"))
      | Some t =>
          let '(ws1, t', r) := Table_update full_metrics (_ws self1) t in
          (set_tables (<[table_rc := t']> (tables self1)) (set_ws ws1 self1), r)
      end
  end.

(** The concatenation built by the first loop of [save] (lines 79-81). *)
Definition aggregated_cell_buffers (self : MetricsWorkSheet) : list Cell :=
  a ← (_schema_to_table self).*2;
  from_option cells_buffer [] (tables self !! a).

(** The second loop of [save] (lines 84-85). *)
Definition clear_buffers (self : MetricsWorkSheet) : list Table :=
  foldl (λ ts a, alter (set_cells_buffer []) a ts) (tables self)
    (_schema_to_table self).*2.

(** The body of [save] (lines 79-85), before decoration; [n] is what the
    network does to the batched write, should one be issued. *)
Definition save_wrapped (n : net) (self : MetricsWorkSheet)
  : MetricsWorkSheet * result unit :=
  match aggregated_cell_buffers self with
  | [] => (self, Ok tt)
  | cs =>
      let '(ws1, r) := ws_update_cells n cs (_ws self) in
      match r with
      | Raise e => (set_ws ws1 self, Raise e)
      | Ok _ => (set_tables (clear_buffers self) (set_ws ws1 self), Ok tt)
      end
  end.

(** Modelled from the spec: the [rank_zero_only] decorator of
    [pytorch_lightning.loggers] (its module is not among the sources).  Only
    rank zero runs the decorated method; on every other rank the call does
    nothing.  The wrapper returns [None] whatever the method returns. *)
Definition rank_zero_only {A : Type}
    (fn : MetricsWorkSheet → MetricsWorkSheet * result A)
    (self : MetricsWorkSheet) : MetricsWorkSheet * result unit :=
  if rank self =? 0 then
    let '(self', r) := fn self in
    (self', match r with Ok _ => Ok tt | Raise e => Raise e end)
  else (self, Ok tt).

Definition log_metrics (metrics : dict) (step : value)
  : MetricsWorkSheet → MetricsWorkSheet * result unit :=
  rank_zero_only (log_metrics_wrapped metrics step).

Definition save (n : net) : MetricsWorkSheet → MetricsWorkSheet * result unit :=
  rank_zero_only (save_wrapped n).

(** [finalize] (lines 87-89); the status is not used.  The inner [save] is
    itself decorated. *)
Definition finalize (n : net) (status : string)
  : MetricsWorkSheet → MetricsWorkSheet * result unit :=
  rank_zero_only (save n).

(** ** A client of the router

    A client issues [log_metrics] and [save] calls one after the other and
    carries on after a [save] that raised. *)
Inductive op :=
| LogMetrics (metrics : dict) (step : value)
| Save (n : net).

Definition step_op (o : op) (self : MetricsWorkSheet)
  : MetricsWorkSheet * result unit :=
  match o with
  | LogMetrics metrics step => log_metrics metrics step self
  | Save n => save n self
  end.

Definition run (ops : list op) (self : MetricsWorkSheet) : MetricsWorkSheet :=
  foldl (λ s o, (step_op o s).1) self ops.

(** The key-set under which a [LogMetrics] call is routed. *)
Definition op_schema (o : op) : option (gset string) :=
  match o with
  | LogMetrics metrics step => Some (schema_of (full_metrics metrics step))
  | Save _ => None
  end.

(** ** class GDriveLogger: version and folder resolution *)

(** A file identifier of the drive service: the alias ['root'] or an
    identifier the service handed out. *)
Inductive file_id :=
| RootId
| FileId (n : nat).

#[global] Instance file_id_eq_dec : EqDecision file_id.
Proof. solve_decision. Defined.

Record DriveFile := mkDriveFile {
  id : file_id;
  title : string;
  mimeType : string;
  parents : list file_id;
  trashed : bool
}.

Definition folder_mimeType : string := "application/vnd.google-apps.folder".

(** [self.drive.ListFile({'q': ...}).GetList()] for the two queries the
    logger issues: ['<parent>' in parents and trashed=false], optionally
    followed by [and title='<t>']. *)
Definition ListFile (parent : file_id) (with_title : option string)
    (drive : list DriveFile) : list DriveFile :=
  filter (λ f, bool_decide (parent ∈ parents f) && negb (trashed f) &&
               match with_title with
               | Some t => bool_decide (title f = t)
               | None => true
               end = true) drive.

(** [is_dir] (lines 174-176). *)
Definition is_dir (_file : DriveFile) : bool :=
  bool_decide (mimeType _file = folder_mimeType).

(** [_find_or_create_folder] (lines 157-172).  The service names a new file
    by the next unused number. *)
Definition _find_or_create_folder (name : string) (parent_dir_id : file_id)
    (drive : list DriveFile) : list DriveFile * file_id :=
  match filter (λ f, is_dir f = true) (ListFile parent_dir_id (Some name) drive) with
  | _file :: _ => (drive, id _file)
  | [] =>
      let folder :=
        mkDriveFile (FileId (length drive)) name folder_mimeType
          (if decide (parent_dir_id = RootId) then [RootId] else [parent_dir_id])
          false in
      (drive ++ [folder], id folder)
  end.

(** The value of the [version] argument and of the [_version] attribute. *)
Inductive pyversion :=
| VersionNone
| VersionInt (n : Z)
| VersionStr (s : string).

(** The attributes of the logger that the resolution reads and writes.  An
    attribute that has not been assigned yet is [None]; reading it raises
    [AttributeError]. *)
Record GDriveLogger := mkGDriveLogger {
  _name : option string;
  drive : list DriveFile;
  _version : option pyversion;
  root_folder_id : option file_id;
  log_folder_id : option file_id
}.

Definition set_version (v : pyversion) (self : GDriveLogger) : GDriveLogger :=
  mkGDriveLogger (_name self) (drive self) (Some v) (root_folder_id self)
    (log_folder_id self).

Definition set_drive (d : list DriveFile) (self : GDriveLogger) : GDriveLogger :=
  mkGDriveLogger (_name self) d (_version self) (root_folder_id self)
    (log_folder_id self).

Definition set_root_folder_id (f : file_id) (self : GDriveLogger) : GDriveLogger :=
  mkGDriveLogger (_name self) (drive self) (_version self) (Some f)
    (log_folder_id self).

Definition set_log_folder_id (f : file_id) (self : GDriveLogger) : GDriveLogger :=
  mkGDriveLogger (_name self) (drive self) (_version self) (root_folder_id self)
    (Some f).

(** The object when line 106 is reached on a fresh instance: the drive
    session is open and no other attribute is assigned but [_name].  The base
    class initialiser of line 98 is not among the sources; it is taken to
    assign none of these attributes. *)
Definition GDriveLogger_new (name : string) (d : list DriveFile) : GDriveLogger :=
  mkGDriveLogger (Some name) d None None None.

(** The loop of [_get_next_version] (lines 185-188). *)
Fixpoint existing_versions_loop (file_list : list DriveFile) (acc : list Z)
  : result (list Z) :=
  match file_list with
  | [] => Ok acc
  | d :: rest =>
      if is_dir d && String.prefix "version_" (title d) then
        match split_on "_" (title d) !! 1%nat with
        | None => Raise IndexError
        | Some piece =>
            match int_of_string piece with
            | None => Raise ValueError
            | Some n => existing_versions_loop rest (acc ++ [n])
            end
        end
      else existing_versions_loop rest acc
  end.

(** [max(l)] of a non-empty list; 0 stands in for the empty one, which the
    caller excludes. *)
Definition py_max (l : list Z) : Z :=
  match l with
  | [] => 0
  | x :: xs => foldl Z.max x xs
  end.

(** [_get_next_version] (lines 182-191). *)
Definition _get_next_version (self : GDriveLogger) : result Z :=
  match root_folder_id self with
  | None => Raise (AttributeError "root_folder_id")
  | Some root =>
      let file_list := ListFile root None (drive self) in
      match existing_versions_loop file_list [] with
      | Raise e => Raise e
      | Ok existing_versions =>
          if bool_decide (length existing_versions = 0%nat) then Ok 0
          else Ok (py_max existing_versions + 1)
      end
  end.

(** The [version] property (lines 178-180). *)
Definition version (self : GDriveLogger) : result pyversion :=
  match _version self with
  | None => Raise (AttributeError "_version")
  | Some v => Ok v
  end.

(** Lines 106-116 of [GDriveLogger.__init__]: the resolution of the version
    and of the two folders, one [let] per assignment.  The rest of the
    initialiser provisions the spreadsheet and assigns neither [_version] nor
    a folder. *)
Definition GDriveLogger_init (name : string) (version0 : pyversion)
    (self : GDriveLogger) : GDriveLogger * result unit :=
  let resolved :=
    match version0 with
    | VersionNone =>
        match _get_next_version self with
        | Ok n => Ok (VersionInt n)
        | Raise e => Raise e
        end
    | _ => Ok version0
    end in
  match resolved with
  | Raise e => (self, Raise e)
  | Ok v =>
      let self := set_version v self in
      let version_folder :=
        match v with
        | VersionStr s => s
        | VersionInt n => "version_" +:+ pretty n
        | VersionNone => "version_None"
        end in
      let self := set_version version0 self in
      let '(drive1, root) := _find_or_create_folder name RootId (drive self) in
      let self := set_root_folder_id root (set_drive drive1 self) in
      let '(drive2, log) :=
        _find_or_create_folder version_folder root (drive self) in
      let self := set_log_folder_id log (set_drive drive2 self) in
      (self, Ok tt)
  end.

(** ** Vocabulary of the statements *)

(** The cells one [update] stages for [names] from column [c] of row [r]:
    one per name, up to the first name the row lacks. *)
Fixpoint staged_cells (r c : Z) (names : list string) (row : dict) : list Cell :=
  match names with
  | [] => []
  | h :: hs =>
      match dict_get h row with
      | None => []
      | Some v => mkCell r c (item_of v) :: staged_cells r (c + 1) hs row
      end
  end.

(** The first header name the row lacks. *)
Definition missing_key (names : list string) (row : dict) : option string :=
  head (filter (λ h, dict_get h row = None) names).

(** The last column of a table's block. *)
Definition last_column (t : Table) : Z :=
  _col_offset t + Z.of_nat (length (_metrics_header t)) - 1.

(** Two column blocks share a column. *)
Definition columns_overlap (t1 t2 : Table) : Prop :=
  ∃ c, _col_offset t1 ≤ c ≤ last_column t1 ∧ _col_offset t2 ≤ c ≤ last_column t2.

(** The states Python can reach: every entry of the dictionary refers to a
    live table whose header draws on the entry's key-set, and no two entries
    share a table. *)
Definition router_wf (self : MetricsWorkSheet) : Prop :=
  (∀ fs a, (fs, a) ∈ _schema_to_table self →
     ∃ t, tables self !! a = Some t ∧ ∀ h, h ∈ _metrics_header t → h ∈ fs) ∧
  NoDup (_schema_to_table self).*2.

(** The row that line 75 of [log_metrics] writes: [_last_step] of the table
    the call is routed to, read between lines 74 and 75. *)
Definition assigned_row (metrics : dict) (step : value)
    (self : MetricsWorkSheet) : option Z :=
  let '(self1, r) :=
    _get_table_for_set_of_metrics (full_metrics metrics step) self in
  match r with
  | Ok table_rc => _last_step <$> tables self1 !! table_rc
  | Raise _ => None
  end.

(** How many of the calls in [ops] are routed under the key-set [fs]. *)
Definition calls_under (fs : gset string) (ops : list op) : nat :=
  length (filter (λ o, op_schema o = Some fs) ops).

(** The requests [self'] has issued beyond those of [self]. *)
Definition new_calls (self self' : MetricsWorkSheet) : list WsCall :=
  drop (length (calls (_ws self))) (calls (_ws self')).

Definition network_writes (cs : list WsCall) : nat :=
  length (filter (λ c, is_write c = true) cs).

(** The header a new table derives from the mapping that created it
    (lines 28-33). *)
Definition header_names (metrics : dict) (step : value) : list string :=
  (if is_None step then [] else ["step"]) ++
  filter (λ k, k ≠ "step") (dict_keys metrics).

(** The column offset a new table derives from the remote header row
    (lines 22-26). *)
Definition offset_for (header : list value) : Z :=
  if bool_decide (header = []) then 1 else Z.of_nat (length header) + 2.

(** The table after an [update] that found every header name in [row]. *)
Definition updated (row : dict) (t : Table) : Table :=
  mkTable
    (cells_buffer t ++
     staged_cells (_last_step t) (_col_offset t) (_metrics_header t) row)
    (_col_offset t) (_last_step t + 1) (_metrics_header t).

(** The table [Table(ws, header_row, metrics)] builds when [metrics] has the
    entry [step]. *)
Definition new_table (ws : Worksheet) (header_row : Z) (metrics : dict)
    (step : value) : Table :=
  let col_offset := offset_for (ws_row_values header_row ws).2 in
  let names := header_names metrics step in
  mkTable
    (imap (λ i h, mkCell header_row (col_offset + Z.of_nat i) (VStr h)) names)
    col_offset (header_row + 1) names.

(** The worksheet after [Table(ws, header_row, metrics)]: two read requests
    more, the grid as it was. *)
Definition read_by_init (ws : Worksheet) (header_row : Z) (metrics : dict)
    (step : value) : Worksheet :=
  let t := new_table ws header_row metrics step in
  {| grid := grid ws;
     calls := calls ws ++
              [CallRowValues header_row;
               CallRange header_row (_col_offset t) header_row (last_column t)] |}.

(** [self'] is a later state of [self]: same header row and rank, every
    entry of the dictionary still there with the same address, every table
    still there with the same header and column offset and with a row cursor
    that has not moved back. *)
Definition later (self self' : MetricsWorkSheet) : Prop :=
  _header_row self' = _header_row self ∧
  rank self' = rank self ∧
  (∀ fs a, schema_get fs (_schema_to_table self) = Some a →
           schema_get fs (_schema_to_table self') = Some a) ∧
  (∀ a t, tables self !! a = Some t →
          ∃ t', tables self' !! a = Some t' ∧
                _metrics_header t' = _metrics_header t ∧
                _col_offset t' = _col_offset t ∧
                _last_step t ≤ _last_step t').

(** The row the next call under key-set [fs] will write. *)
Definition next_row (fs : gset string) (self : MetricsWorkSheet) : Z :=
  match schema_get fs (_schema_to_table self) with
  | None => _header_row self + 1
  | Some a => from_option _last_step 0 (tables self !! a)
  end.

(** The table a [log_metrics] call is routed to: what line 74 binds to
    [table_rc]. *)
Definition routed (metrics : dict) (step : value) (self : MetricsWorkSheet)
  : result nat :=
  (_get_table_for_set_of_metrics (full_metrics metrics step) self).2.

(** The call names a column: it has a step, or a metric that is not called
    [step].  A table made for a call that names none has an empty header,
    and the block its [range] request asks for ends one column before it
    starts. *)
Definition names_a_column (metrics : dict) (step : value) : bool :=
  bool_decide (header_names metrics step ≠ []).

Definition op_names_a_column (o : op) : bool :=
  match o with
  | LogMetrics metrics step => names_a_column metrics step
  | Save _ => true
  end.

(** The requests on which this model and the client library agree (see
    [ws_range]): rows and columns count from 1, where the library refuses
    anything below, and a block has one cell at least, since what the
    service answers for a block that ends before it starts is not
    modelled. *)
Definition accepted (c : WsCall) : bool :=
  match c with
  | CallRowValues r => 1 <=? r
  | CallRange r1 c1 r2 c2 =>
      (1 <=? r1) && (1 <=? c1) && (r1 <=? r2) && (c1 <=? c2)
  | _ => true
  end.

(** A table whose requests are accepted: the row cursor and the first
    column are 1 or more, and the header has a name. *)
Definition table_ok (t : Table) : Prop :=
  1 ≤ _last_step t ∧ 1 ≤ _col_offset t ∧ _metrics_header t ≠ [].

(** The states in which the model and the client library agree: a reachable
    state whose header row is a row of the sheet and whose tables all send
    requests that are accepted. *)
Definition router_ok (self : MetricsWorkSheet) : Prop :=
  router_wf self ∧ 1 ≤ _header_row self ∧ Forall table_ok (tables self).

(** Two sample states: a router on rank zero over an empty worksheet with
    header row 3, and the same router after one call has staged a header and
    a row. *)
Definition sample_router : MetricsWorkSheet :=
  mkMetricsWorkSheet (mkWorksheet ∅ []) [] [] 3 0.

Definition sample_staged : MetricsWorkSheet :=
  (log_metrics [("loss", VNum 5)] (VNum 1) sample_router).1.

(** The scenario of [test_gspread_logger]: twenty iterations, each logging
    the training metrics, every third one saving and then logging the
    validation metrics, every fifth one saving and then logging the test
    metrics.  The metric values are stand-ins. *)
Definition test_iteration (_idx : Z) : list op :=
  [LogMetrics [("loss", VNum (20 - _idx)); ("acc", VNum _idx)] (VNum _idx)] ++
  (if _idx mod 3 =? 0
   then [Save NetOk;
         LogMetrics [("val_loss", VNum (20 - _idx)); ("mIoU", VNum _idx)] (VNum _idx)]
   else []) ++
  (if _idx mod 5 =? 0
   then [Save NetOk;
         LogMetrics [("test_mIoU", VNum _idx); ("test_AP", VNum _idx)] (VNum _idx)]
   else []).

Definition test_gspread_logger : list op :=
  (_idx ← seqZ 1 20; test_iteration _idx) ++ [Save NetOk].

(** Two calls under different key-sets with no [save] in between. *)
Definition two_key_sets : list op :=
  [LogMetrics [("loss", VNum 1)] (VNum 1);
   LogMetrics [("val_loss", VNum 2)] (VNum 1)].

(** A drive in which the experiment folder holds the runs 0 and 3, a trashed
    run 7 and a file that is not a folder. *)
Definition sample_drive : list DriveFile :=
  [mkDriveFile (FileId 0) "lightning_logs" folder_mimeType [RootId] false;
   mkDriveFile (FileId 1) "version_0" folder_mimeType [FileId 0] false;
   mkDriveFile (FileId 2) "version_3" folder_mimeType [FileId 0] false;
   mkDriveFile (FileId 3) "version_7" folder_mimeType [FileId 0] true;
   mkDriveFile (FileId 4) "version_9" "text/plain" [FileId 0] false].

(** ** Vocabulary of the further properties *)

(** [isinstance(v, torch.Tensor)] *)
Definition is_tensor (v : value) : bool :=
  match v with VTensor _ => true | _ => false end.

(** What every table satisfies at all times: the row cursor is below the
    header row, the block starts at column 1 or later, and each pending cell
    lies in the block, between the header row and the cursor, and holds no
    tensor. *)
Definition table_inv (header_row : Z) (t : Table) : Prop :=
  header_row < _last_step t ∧
  1 ≤ _col_offset t ∧
  ∀ c, c ∈ cells_buffer t →
    header_row ≤ cell_row c < _last_step t ∧
    _col_offset t ≤ cell_col c ≤ last_column t ∧
    is_tensor (cell_value c) = false.

(** The invariant of the router: the reachable-state conditions, the table
    invariant for every table, the header of each table made of the names of
    its key-set, and no table outside the dictionary. *)
Definition router_inv (self : MetricsWorkSheet) : Prop :=
  router_wf self ∧
  Forall (table_inv (_header_row self)) (tables self) ∧
  (∀ fs a t, (fs, a) ∈ _schema_to_table self → tables self !! a = Some t →
     list_to_set (_metrics_header t) ∪ {["step"]} = fs) ∧
  (∀ a, (a < length (tables self))%nat → a ∈ (_schema_to_table self).*2).

(** A live folder titled [name] directly under [parent]: what the query and
    the [is_dir] test of [_find_or_create_folder] select. *)
Definition live_folder (name : string) (parent : file_id) (f : DriveFile) : Prop :=
  is_dir f = true ∧ trashed f = false ∧ title f = name ∧ parent ∈ parents f.

(** A folder [_get_next_version] counts: live, directly under [root], with a
    title that starts with [version_]. *)
Definition version_folder (root : file_id) (f : DriveFile) : Prop :=
  root ∈ parents f ∧ trashed f = false ∧ is_dir f = true ∧
  String.prefix "version_" (title f) = true.

(** The name of the run folder (lines 110-113). *)
Definition version_folder_name (v : pyversion) : string :=
  match v with
  | VersionStr s => s
  | VersionInt n => "version_" +:+ pretty n
  | VersionNone => "version_None"
  end.

(** ** [GDriveLogger.log_hyperparams] *)

(** [isinstance(_val, (str, int, float))] *)
Definition is_str_int_float (v : value) : bool :=
  match v with VNum _ | VStr _ => true | _ => false end.

(** The argument of [log_hyperparams]: a dictionary, or an
    [argparse.Namespace], of which line 148 takes the [__dict__]. *)
Inductive hparams_arg :=
| ParamsDict (d : dict)
| ParamsNamespace (attrs : dict).

(** The list [hparams] of lines 149-153.  [py_str] is [str] on the values
    that are neither [str], [int] nor [float]; how such a value prints is its
    class's business. *)
Definition hparams_rows (py_str : value → string) (params : hparams_arg)
  : list (value * value) :=
  let params :=
    match params with ParamsDict d => d | ParamsNamespace attrs => attrs end in
  (VStr "hyperparameter", VStr "value") ::
  ((λ kv, (VStr kv.1,
           if is_str_int_float kv.2 then kv.2 else VStr (py_str kv.2)))
     <$> params).

(** The cells of the range [A1:B<n>] filled, row by row, with [n] pairs. *)
Definition rows_to_cells (rows : list (value * value)) : list Cell :=
  mjoin (imap (λ i row, [mkCell (1 + Z.of_nat i) 1 row.1;
                         mkCell (1 + Z.of_nat i) 2 row.2]) rows).

(** [log_hyperparams] (lines 145-155) on the [hyperparams] worksheet, with
    the [rank_zero_only] decorator of line 145 written out: [rank0] is the
    rank of the logger. *)
Definition log_hyperparams (py_str : value → string) (params : hparams_arg)
    (rank0 : Z) (_hparams_worksheet : Worksheet) : Worksheet * result unit :=
  if rank0 =? 0 then
    let hparams := hparams_rows py_str params in
    (ws_update (rows_to_cells hparams) _hparams_worksheet, Ok tt)
  else (_hparams_worksheet, Ok tt).

(** ** Dictionaries *)

Lemma dict_get_set_eq k v d : dict_get k (dict_set k v d) = Some v.
Proof.
  induction d as [|[k' v'] d IH]; simpl.
  - by rewrite decide_True.
  - destruct (decide (k = k')) as [->|Hne]; simpl.
    + by rewrite decide_True.
    + by rewrite decide_False.
Qed.

Lemma dict_get_set_ne k k' v d :
  k ≠ k' → dict_get k' (dict_set k v d) = dict_get k' d.
Proof.
  intros Hne. induction d as [|[k0 v0] d IH]; simpl.
  - rewrite decide_False; [done | congruence].
  - destruct (decide (k = k0)) as [->|Hne0]; simpl.
    + rewrite !decide_False; [done | congruence..].
    + destruct (decide (k' = k0)); [done | exact IH].
Qed.

Lemma dict_keys_set k v d :
  dict_keys (dict_set k v d) =
  if bool_decide (k ∈ dict_keys d) then dict_keys d else dict_keys d ++ [k].
Proof.
  unfold dict_keys. induction d as [|[k' v'] d IH]; [done|].
  cbn [dict_set]. destruct (decide (k = k')) as [->|Hne]; rewrite !fmap_cons.
  - rewrite bool_decide_eq_true_2; [done | left].
  - rewrite IH. cbn [fst]. destruct (bool_decide_reflect (k ∈ d.*1)) as [Hin|Hnin].
    + rewrite bool_decide_eq_true_2; [done | by right].
    + rewrite bool_decide_eq_false_2; [done|].
      intros Hin. apply elem_of_cons in Hin as [?|?]; congruence.
Qed.

Lemma schema_of_full_metrics metrics step :
  schema_of (full_metrics metrics step) = schema_of metrics ∪ {["step"]}.
Proof.
  unfold schema_of, full_metrics. rewrite dict_keys_set.
  case_bool_decide as Hin.
  - apply (elem_of_list_to_set (C := gset string)) in Hin. set_solver.
  - rewrite list_to_set_app_L. simpl. set_solver.
Qed.

Lemma dict_get_Some_keys k v d : dict_get k d = Some v → k ∈ dict_keys d.
Proof.
  unfold dict_keys. induction d as [|[k' v'] d IH]; simpl; [done|].
  destruct (decide (k = k')) as [->|Hne]; intros H.
  - left.
  - right. by apply IH.
Qed.

Lemma dict_keys_pop k d :
  dict_keys (filter (λ kv, kv.1 ≠ k) d) = filter (λ k', k' ≠ k) (dict_keys d).
Proof.
  unfold dict_keys. induction d as [|[k' v'] d IH]; [done|].
  rewrite fmap_cons. cbn [fst]. destruct (decide (k' ≠ k)) as [Hne|Heq].
  - rewrite (filter_cons_True _ (k', v')), (filter_cons_True _ k') by done.
    rewrite fmap_cons. cbn [fst]. f_equal. exact IH.
  - rewrite (filter_cons_False _ (k', v')), (filter_cons_False _ k') by done.
    exact IH.
Qed.

Lemma dict_get_header_row h (names : list string) :
  h ∈ names → dict_get h ((λ _h, (_h, VStr _h)) <$> names) = Some (VStr h).
Proof.
  induction names as [|n names IH]; intros Hin; [by apply elem_of_nil in Hin|].
  simpl. destruct (decide (h = n)) as [->|Hne]; [done|].
  apply IH. apply elem_of_cons in Hin as [?|?]; [congruence | done].
Qed.

(** ** class Table: what one [update] does *)

Section table_update.
Implicit Types (t : Table) (ws : Worksheet) (row : dict).
Implicit Types (names : list string).

Lemma ws_range_one_row r c n ws :
  ws_range r c r (c + Z.of_nat n - 1) ws =
  (record_call (CallRange r c r (c + Z.of_nat n - 1)) ws,
   (λ c', mkCell r c' (cell_at (grid ws) r c')) <$> seqZ c (Z.of_nat n)).
Proof.
  unfold ws_range. f_equal.
  replace (r - r + 1) with 1 by lia.
  replace (c + Z.of_nat n - 1 - c + 1) with (Z.of_nat n) by lia.
  rewrite (seqZ_cons r) by lia. rewrite (seqZ_nil (Z.succ r)) by lia.
  simpl. by rewrite app_nil_r.
Qed.

Lemma missing_key_cons h names row :
  missing_key (h :: names) row =
  match dict_get h row with
  | None => Some h
  | Some _ => missing_key names row
  end.
Proof.
  unfold missing_key. destruct (dict_get h row) eqn:E.
  - rewrite filter_cons_False; [done | by rewrite E].
  - by rewrite filter_cons_True.
Qed.

Lemma missing_key_None names row :
  missing_key names row = None ↔ ∀ h, h ∈ names → is_Some (dict_get h row).
Proof.
  induction names as [|h0 names IH].
  - split; [intros _ h Hin; by apply elem_of_nil in Hin | done].
  - rewrite missing_key_cons. destruct (dict_get h0 row) eqn:E.
    + rewrite IH. split.
      * intros Hall h Hin. apply elem_of_cons in Hin as [->|Hin]; [by rewrite E | auto].
      * intros Hall h Hin. apply Hall. by right.
    + split; [done|]. intros Hall. destruct (Hall h0) as [v Hv]; [left | congruence].
Qed.

Lemma missing_key_first pre name post row :
  (∀ h, h ∈ pre → is_Some (dict_get h row)) →
  dict_get name row = None →
  missing_key (pre ++ name :: post) row = Some name.
Proof.
  induction pre as [|h pre IH]; intros Hpre Hname; simpl.
  - by rewrite missing_key_cons, Hname.
  - rewrite missing_key_cons. destruct (Hpre h) as [v ->]; [left|].
    apply IH; [|done]. intros h' Hin. apply Hpre. by right.
Qed.

Lemma staged_cells_prefix r pre name post row : ∀ c,
  dict_get name row = None →
  staged_cells r c (pre ++ name :: post) row = staged_cells r c pre row.
Proof.
  induction pre as [|h pre IH]; intros c Hname; simpl.
  - by rewrite Hname.
  - destruct (dict_get h row); [|done]. by rewrite IH.
Qed.

Lemma length_staged_cells r names row : ∀ c,
  (∀ h, h ∈ names → is_Some (dict_get h row)) →
  length (staged_cells r c names row) = length names.
Proof.
  induction names as [|h names IH]; intros c Hall; [done|]. simpl.
  destruct (Hall h) as [v ->]; [left|]. simpl. f_equal.
  apply IH. intros h' Hin. apply Hall. by right.
Qed.

Lemma lookup_staged_cells r names row : ∀ c i h v,
  (∀ h, h ∈ names → is_Some (dict_get h row)) →
  names !! i = Some h → dict_get h row = Some v →
  staged_cells r c names row !! i = Some (mkCell r (c + Z.of_nat i) (item_of v)).
Proof.
  induction names as [|h0 names IH]; intros c i h v Hall Hi Hv; [done|].
  simpl. destruct (Hall h0) as [v0 Hv0]; [left|]. rewrite Hv0.
  destruct i as [|i]; simpl in *.
  - injection Hi as ->. rewrite Hv in Hv0. injection Hv0 as ->.
    do 2 f_equal. lia.
  - rewrite (IH (c + 1) i h v); [do 2 f_equal; lia | | done..].
    intros h' Hin. apply Hall. by right.
Qed.

Lemma staged_cells_row r names row : ∀ c cell,
  cell ∈ staged_cells r c names row → cell_row cell = r.
Proof.
  induction names as [|h names IH]; intros c cell Hin; simpl in Hin.
  - by apply elem_of_nil in Hin.
  - destruct (dict_get h row); [|by apply elem_of_nil in Hin].
    apply elem_of_cons in Hin as [->|Hin]; [done | eauto].
Qed.

Lemma update_loop_spec row g r names : ∀ c buf,
  update_loop row
    (zip names ((λ c', mkCell r c' (cell_at g r c')) <$>
                seqZ c (Z.of_nat (length names)))) buf =
  (buf ++ staged_cells r c names row,
   match missing_key names row with
   | None => Ok tt
   | Some k => Raise (KeyError k)
   end).
Proof.
  induction names as [|h names IH]; intros c buf.
  - simpl. by rewrite app_nil_r.
  - rewrite seqZ_cons by (simpl; lia).
    replace (Z.pred (Z.of_nat (length (h :: names))))
      with (Z.of_nat (length names)) by (simpl; lia).
    rewrite missing_key_cons. simpl. destruct (dict_get h row) as [v|].
    + rewrite IH, <- app_assoc. simpl. by replace (Z.succ c) with (c + 1) by lia.
    + by rewrite app_nil_r.
Qed.

(** [update] in closed form: one [range] request, the staged cells appended
    to the buffer, and the row cursor advanced only when no key is missing. *)
Lemma Table_update_spec row ws t :
  Table_update row ws t =
  (record_call
     (CallRange (_last_step t) (_col_offset t) (_last_step t) (last_column t)) ws,
   mkTable
     (cells_buffer t ++
      staged_cells (_last_step t) (_col_offset t) (_metrics_header t) row)
     (_col_offset t)
     (match missing_key (_metrics_header t) row with
      | None => _last_step t + 1
      | Some _ => _last_step t
      end)
     (_metrics_header t),
   match missing_key (_metrics_header t) row with
   | None => Ok tt
   | Some k => Raise (KeyError k)
   end).
Proof.
  unfold Table_update, last_column. rewrite ws_range_one_row, update_loop_spec.
  by destruct (missing_key (_metrics_header t) row).
Qed.

End table_update.

Lemma network_writes_app cs1 cs2 :
  network_writes (cs1 ++ cs2) = (network_writes cs1 + network_writes cs2)%nat.
Proof. unfold network_writes. by rewrite filter_app, length_app. Qed.

Lemma network_writes_read cs c :
  is_write c = false → network_writes (cs ++ [c]) = network_writes cs.
Proof.
  intros Hc. rewrite network_writes_app. unfold network_writes at 2.
  rewrite filter_cons_False by (by rewrite Hc). simpl. lia.
Qed.

Lemma staged_cells_header_row r (all : list string) : ∀ names c,
  names ⊆ all →
  staged_cells r c names ((λ _h, (_h, VStr _h)) <$> all) =
  imap (λ i h, mkCell r (c + Z.of_nat i) (VStr h)) names.
Proof.
  induction names as [|h names IH]; intros c Hsub; [done|].
  simpl. rewrite dict_get_header_row by (apply Hsub; left). simpl.
  f_equal; [do 2 f_equal; lia|].
  rewrite IH by (intros x Hx; apply Hsub; by right).
  apply imap_ext. intros i x _. simpl. f_equal. lia.
Qed.

(** C2 (as stated, refuted).  A table with header [step, loss] is updated
    with a row that has both values: the update sends a [range] request to
    the remote worksheet, so "no read or write against the remote worksheet
    occurs" fails. *)
Lemma Table_update_issues_request :
  let t := mkTable [] 1 4 ["step"; "loss"] in
  let row := [("loss", VNum 7); ("step", VNum 1)] in
  let ws := mkWorksheet ∅ [] in
  (∀ h, h ∈ _metrics_header t → is_Some (dict_get h row)) ∧
  calls (Table_update row ws t).1.1 = [CallRange 4 1 4 2] ∧
  calls (Table_update row ws t).1.1 ≠ calls ws.
Proof.
  split; [|split]; [| done | done].
  intros h Hin. repeat (apply elem_of_cons in Hin as [->|Hin]; [by eexists|]).
  by apply elem_of_nil in Hin.
Qed.

(** C2 (amended).  For every table and every row that has a value for each
    header name, [update] succeeds and writes nothing to the remote
    worksheet: its one request is the [range] read of the cells of the
    current row, the grid is unchanged, and in memory it appends one cell per
    header name, at (next_row, column_offset + i) with the unwrapped value,
    to the pending buffer and increments the row cursor by one. *)
Theorem Table_update_effects row ws t :
  (∀ h, h ∈ _metrics_header t → is_Some (dict_get h row)) →
  ∃ ws' t',
    Table_update row ws t = (ws', t', Ok tt) ∧
    grid ws' = grid ws ∧
    calls ws' =
      calls ws ++
      [CallRange (_last_step t) (_col_offset t) (_last_step t) (last_column t)] ∧
    network_writes (calls ws') = network_writes (calls ws) ∧
    cells_buffer t' =
      cells_buffer t ++
      staged_cells (_last_step t) (_col_offset t) (_metrics_header t) row ∧
    length (cells_buffer t') =
      (length (cells_buffer t) + length (_metrics_header t))%nat ∧
    (∀ i h v, _metrics_header t !! i = Some h → dict_get h row = Some v →
       cells_buffer t' !! (length (cells_buffer t) + i)%nat =
       Some (mkCell (_last_step t) (_col_offset t + Z.of_nat i) (item_of v))) ∧
    _last_step t' = _last_step t + 1 ∧
    _col_offset t' = _col_offset t ∧
    _metrics_header t' = _metrics_header t.
Proof.
  intros Hall. rewrite Table_update_spec.
  apply missing_key_None in Hall as Hnone. rewrite Hnone.
  eexists _, _. split; [reflexivity|]. simpl.
  repeat split; try done.
  - by apply network_writes_read.
  - by rewrite length_app, length_staged_cells.
  - intros i h v Hi Hv. rewrite lookup_app_r by lia.
    replace (length (cells_buffer t) + i - length (cells_buffer t))%nat
      with i by lia.
    by apply lookup_staged_cells with h.
Qed.

Lemma Table_update_effects_witness :
  ∃ ws' t',
    Table_update [("loss", VTensor 7); ("step", VNum 1)] (mkWorksheet ∅ [])
      (mkTable [] 1 4 ["step"; "loss"]) = (ws', t', Ok tt) ∧
    cells_buffer t' = [mkCell 4 1 (VNum 1); mkCell 4 2 (VNum 7)] ∧
    _last_step t' = 5.
Proof.
  destruct (Table_update_effects [("loss", VTensor 7); ("step", VNum 1)]
              (mkWorksheet ∅ []) (mkTable [] 1 4 ["step"; "loss"]))
    as (ws' & t' & Heq & _ & _ & _ & Hbuf & _ & _ & Hrow & _).
  - intros h Hin. repeat (apply elem_of_cons in Hin as [->|Hin]; [by eexists|]).
    by apply elem_of_nil in Hin.
  - exists ws', t'. split; [exact Heq|]. split; [exact Hbuf | exact Hrow].
Defined.

(** C9.  When the row given to [update] lacks a header name that is not the
    first one (every name before it is present), the call raises [KeyError]
    for that name and leaves the table half changed: the cells of the names
    before the missing one, one per name, are already in the pending buffer,
    while the row cursor is not incremented. *)
Theorem Table_update_KeyError_partial row ws t pre name post :
  _metrics_header t = pre ++ name :: post →
  pre ≠ [] →
  (∀ h, h ∈ pre → is_Some (dict_get h row)) →
  dict_get name row = None →
  ∃ ws' t',
    Table_update row ws t = (ws', t', Raise (KeyError name)) ∧
    cells_buffer t' =
      cells_buffer t ++ staged_cells (_last_step t) (_col_offset t) pre row ∧
    length (cells_buffer t') = (length (cells_buffer t) + length pre)%nat ∧
    (length (cells_buffer t) < length (cells_buffer t'))%nat ∧
    _last_step t' = _last_step t ∧
    t' ≠ t.
Proof.
  intros Hhdr Hpre Hall Hname. rewrite Table_update_spec, Hhdr.
  rewrite (missing_key_first pre name post row Hall Hname).
  rewrite staged_cells_prefix by done.
  eexists _, _. split; [reflexivity|]. simpl.
  assert (length (cells_buffer t ++
            staged_cells (_last_step t) (_col_offset t) pre row) =
          (length (cells_buffer t) + length pre)%nat) as Hlen
    by by rewrite length_app, length_staged_cells.
  assert (0 < length pre)%nat by (destruct pre; [done | simpl; lia]).
  repeat split; try done; [lia|].
  intros Heq. apply (f_equal (λ x, length (cells_buffer x))) in Heq.
  simpl in Heq. lia.
Qed.

Lemma Table_update_KeyError_partial_witness :
  ∃ ws' t',
    Table_update [("step", VNum 1)] (mkWorksheet ∅ [])
      (mkTable [] 1 4 ["step"; "loss"]) = (ws', t', Raise (KeyError "loss")) ∧
    cells_buffer t' = [mkCell 4 1 (VNum 1)] ∧
    _last_step t' = 4.
Proof.
  destruct (Table_update_KeyError_partial [("step", VNum 1)] (mkWorksheet ∅ [])
              (mkTable [] 1 4 ["step"; "loss"]) ["step"] "loss" [])
    as (ws' & t' & Heq & Hbuf & _ & _ & Hrow & _); [done | done | | done |].
  - intros h Hin. apply elem_of_cons in Hin as [->|Hin]; [by eexists|].
    by apply elem_of_nil in Hin.
  - exists ws', t'. split; [exact Heq|]. split; [exact Hbuf | exact Hrow].
Defined.

(** ** class Table: construction *)

Lemma offset_for_match (header : list value) :
  match header with [] => 1 | _ :: _ => Z.of_nat (length header) + 2 end =
  offset_for header.
Proof. unfold offset_for. by destruct header. Qed.

Lemma offset_for_pos header : 1 ≤ offset_for header.
Proof. unfold offset_for. case_bool_decide; lia. Qed.

Lemma names_a_column_spec metrics step :
  names_a_column metrics step = true ↔ header_names metrics step ≠ [].
Proof. unfold names_a_column. apply bool_decide_eq_true. Qed.

Lemma Table_init_closed ws header_row metrics step :
  dict_get "step" metrics = Some step →
  let col_offset := offset_for (ws_row_values header_row ws).2 in
  let names := header_names metrics step in
  Table_init ws header_row metrics =
  ({| grid := grid ws;
      calls := calls ws ++
               [CallRowValues header_row;
                CallRange header_row col_offset header_row
                  (col_offset + Z.of_nat (length names) - 1)] |},
   Ok (mkTable
         (imap (λ i h, mkCell header_row (col_offset + Z.of_nat i) (VStr h)) names)
         col_offset (header_row + 1) names)).
Proof.
  intros Hstep col_offset names. unfold Table_init, dict_pop. rewrite Hstep.
  cbn [ws_row_values]. rewrite offset_for_match, dict_keys_pop.
  fold (header_names metrics step). fold names.
  change (cell_at (grid ws) header_row <$> seqZ 1 (last_col (grid ws) header_row))
    with (ws_row_values header_row ws).2.
  fold col_offset. rewrite Table_update_spec.
  cbn [cells_buffer _col_offset _last_step _metrics_header last_column].
  assert (missing_key names ((λ _h : string, (_h, VStr _h)) <$> names) = None)
    as ->.
  { apply missing_key_None. intros h Hin. rewrite dict_get_header_row; eauto. }
  rewrite staged_cells_header_row by done.
  unfold record_call, last_column.
  cbn [grid calls app cells_buffer _col_offset _last_step _metrics_header].
  by rewrite <- app_assoc.
Qed.

(** Without a [step] entry, line 30 raises [KeyError] after the header row
    has been read; [log_metrics] always supplies the entry. *)
Lemma Table_init_no_step ws header_row metrics :
  dict_get "step" metrics = None →
  Table_init ws header_row metrics =
  (record_call (CallRowValues header_row) ws, Raise (KeyError "step")).
Proof. intros H. unfold Table_init, dict_pop. by rewrite H. Qed.

(** C8.  Constructing a table on a header row of the sheet, from a mapping
    that has a [step] entry and names a column, reads the remote header row
    and takes column offset 1 when that row is empty and [len(header) + 2]
    otherwise; the header names are [step] first, when the step is not
    [None], then the other keys of the mapping in its own order; each header
    name is staged at (header_row, column_offset + i) in the same pending
    buffer that data rows use, leaving the row cursor at header_row + 1;
    nothing is written to the remote worksheet, so the header travels with
    the next flush.  The two requests it sends are the read of the header
    row and the [range] over the cells of the new header, a block that
    starts at column 1 or later and has a cell at least. *)
Theorem Table_init_spec ws header_row metrics step :
  dict_get "step" metrics = Some step →
  1 ≤ header_row →
  names_a_column metrics step = true →
  ∃ ws' t,
    Table_init ws header_row metrics = (ws', Ok t) ∧
    _col_offset t =
      (match (ws_row_values header_row ws).2 with
       | [] => 1
       | header => Z.of_nat (length header) + 2
       end) ∧
    _metrics_header t =
      (if is_None step then [] else ["step"]) ++
      filter (λ k, k ≠ "step") (dict_keys metrics) ∧
    cells_buffer t =
      imap (λ i h, mkCell header_row (_col_offset t + Z.of_nat i) (VStr h))
        (_metrics_header t) ∧
    _last_step t = header_row + 1 ∧
    grid ws' = grid ws ∧
    network_writes (calls ws') = network_writes (calls ws) ∧
    calls ws' =
      calls ws ++
      [CallRowValues header_row;
       CallRange header_row (_col_offset t) header_row (last_column t)] ∧
    1 ≤ _col_offset t ≤ last_column t.
Proof.
  intros Hstep Hrow Hcol. apply names_a_column_spec in Hcol.
  rewrite (Table_init_closed _ _ _ _ Hstep).
  eexists _, _. split; [reflexivity|]. unfold last_column.
  cbn [_col_offset _metrics_header cells_buffer _last_step grid calls].
  pose proof (offset_for_pos (ws_row_values header_row ws).2) as Hoff.
  assert (0 < length (header_names metrics step))%nat as Hlen
    by (destruct (header_names metrics step); [done | simpl; lia]).
  repeat split; try done; try lia.
  - unfold offset_for. by destruct ((ws_row_values header_row ws).2).
  - change [CallRowValues header_row; ?c] with ([CallRowValues header_row] ++ [c]).
    rewrite app_assoc. by rewrite !network_writes_read.
Qed.

Lemma Table_init_spec_witness :
  ∃ ws' t,
    Table_init (mkWorksheet ∅ []) 3
      [("loss", VNum 20); ("acc", VNum 1); ("step", VNum 1)] = (ws', Ok t) ∧
    _col_offset t = 1 ∧
    _metrics_header t = ["step"; "loss"; "acc"] ∧
    cells_buffer t =
      [mkCell 3 1 (VStr "step"); mkCell 3 2 (VStr "loss"); mkCell 3 3 (VStr "acc")] ∧
    _last_step t = 4.
Proof.
  destruct (Table_init_spec (mkWorksheet ∅ []) 3
              [("loss", VNum 20); ("acc", VNum 1); ("step", VNum 1)] (VNum 1))
    as (ws' & t & Heq & Hoff & Hhdr & Hbuf & Hrow & _);
    [reflexivity | lia | reflexivity |].
  exists ws', t. split; [exact Heq|]. split; [exact Hoff|].
  split; [exact Hhdr|]. split; [|exact Hrow].
  rewrite Hbuf, Hhdr, Hoff. reflexivity.
Defined.

(** ** class MetricsWorkSheet: routing *)

Lemma dict_get_is_Some k d : k ∈ dict_keys d → is_Some (dict_get k d).
Proof.
  unfold dict_keys. induction d as [|[k' v'] d IH]; intros Hin.
  - by apply elem_of_nil in Hin.
  - simpl. destruct (decide (k = k')); [by eexists|].
    apply IH. rewrite fmap_cons in Hin.
    apply elem_of_cons in Hin as [?|?]; [done | done].
Qed.

Lemma header_names_keys metrics step h :
  dict_get "step" metrics = Some step →
  h ∈ header_names metrics step → h ∈ schema_of metrics.
Proof.
  intros Hstep Hin. unfold schema_of. apply elem_of_list_to_set.
  unfold header_names in Hin. apply elem_of_app in Hin as [Hin|Hin].
  - destruct (is_None step); [by apply elem_of_nil in Hin|].
    apply list_elem_of_singleton in Hin as ->. by eapply dict_get_Some_keys.
  - by apply list_elem_of_filter in Hin as [_ Hin].
Qed.

Lemma schema_get_elem fs a d : schema_get fs d = Some a → (fs, a) ∈ d.
Proof.
  induction d as [|[fs' a'] d IH]; simpl; [done|].
  destruct (decide (fs = fs')) as [->|Hne]; intros H.
  - injection H as ->. left.
  - right. by apply IH.
Qed.

Lemma schema_get_snoc fs fs' a d :
  schema_get fs (d ++ [(fs', a)]) =
  match schema_get fs d with
  | Some x => Some x
  | None => if decide (fs = fs') then Some a else None
  end.
Proof.
  induction d as [|[fs0 a0] d IH]; simpl; [done|].
  by destruct (decide (fs = fs0)).
Qed.

Lemma get_table_found metrics self a :
  schema_get (schema_of metrics) (_schema_to_table self) = Some a →
  _get_table_for_set_of_metrics metrics self = (self, Ok a).
Proof. intros H. unfold _get_table_for_set_of_metrics. by rewrite H. Qed.

Lemma get_table_fresh metrics step self :
  schema_get (schema_of metrics) (_schema_to_table self) = None →
  dict_get "step" metrics = Some step →
  _get_table_for_set_of_metrics metrics self =
  (mkMetricsWorkSheet
     (read_by_init (_ws self) (_header_row self) metrics step)
     (tables self ++ [new_table (_ws self) (_header_row self) metrics step])
     (_schema_to_table self ++ [(schema_of metrics, length (tables self))])
     (_header_row self) (rank self),
   Ok (length (tables self))).
Proof.
  intros Hnone Hstep. unfold _get_table_for_set_of_metrics, _create_table_from_keys.
  rewrite Hnone, (Table_init_closed _ _ _ _ Hstep). reflexivity.
Qed.

Lemma full_metrics_step metrics step :
  dict_get "step" (full_metrics metrics step) = Some step.
Proof. apply dict_get_set_eq. Qed.

Lemma addresses_injective (d : list (gset string * nat)) fs fs' a :
  NoDup d.*2 → (fs, a) ∈ d → (fs', a) ∈ d → fs = fs'.
Proof.
  induction d as [|[fs0 a0] d IH]; intros Hnd H1 H2.
  - by apply elem_of_nil in H1.
  - rewrite fmap_cons in Hnd. apply NoDup_cons in Hnd as [Hnin Hnd].
    apply elem_of_cons in H1 as [H1|H1]; apply elem_of_cons in H2 as [H2|H2].
    + congruence.
    + injection H1 as -> ->. exfalso. apply Hnin.
      apply list_elem_of_fmap. by exists (fs', a0).
    + injection H2 as -> ->. exfalso. apply Hnin.
      apply list_elem_of_fmap. by exists (fs, a0).
    + by apply IH.
Qed.

Lemma log_metrics_wrapped_found metrics step self a :
  router_wf self →
  schema_get (schema_of (full_metrics metrics step)) (_schema_to_table self)
    = Some a →
  ∃ t, tables self !! a = Some t ∧
    log_metrics_wrapped metrics step self =
    (mkMetricsWorkSheet
       (record_call
          (CallRange (_last_step t) (_col_offset t) (_last_step t) (last_column t))
          (_ws self))
       (<[a := updated (full_metrics metrics step) t]> (tables self))
       (_schema_to_table self) (_header_row self) (rank self),
     Ok tt).
Proof.
  intros [Hwf _] Hget.
  destruct (Hwf _ _ (schema_get_elem _ _ _ Hget)) as (t & Ht & Hhdr).
  exists t. split; [done|]. unfold log_metrics_wrapped.
  rewrite (get_table_found _ _ _ Hget), Ht, Table_update_spec.
  assert (missing_key (_metrics_header t) (full_metrics metrics step) = None)
    as ->; [|reflexivity].
  apply missing_key_None. intros h Hin. apply dict_get_is_Some.
  apply Hhdr in Hin. by apply elem_of_list_to_set in Hin.
Qed.

Lemma log_metrics_wrapped_fresh metrics step self :
  schema_get (schema_of (full_metrics metrics step)) (_schema_to_table self)
    = None →
  let full := full_metrics metrics step in
  let t := new_table (_ws self) (_header_row self) full step in
  log_metrics_wrapped metrics step self =
  (mkMetricsWorkSheet
     (record_call
        (CallRange (_last_step t) (_col_offset t) (_last_step t) (last_column t))
        (read_by_init (_ws self) (_header_row self) full step))
     (tables self ++ [updated full t])
     (_schema_to_table self ++ [(schema_of full, length (tables self))])
     (_header_row self) (rank self),
   Ok tt).
Proof.
  intros Hnone full t. unfold log_metrics_wrapped. fold full.
  rewrite (get_table_fresh full step self Hnone (full_metrics_step _ _)).
  cbn [tables _ws]. fold t.
  rewrite lookup_app_r, Nat.sub_diag by done. cbn [lookup list_lookup].
  rewrite Table_update_spec.
  assert (missing_key (_metrics_header t) full = None) as ->.
  { apply missing_key_None. intros h Hin. apply dict_get_is_Some.
    apply (header_names_keys full step) in Hin; [|apply full_metrics_step].
    by apply elem_of_list_to_set in Hin. }
  unfold set_tables, set_ws. cbn [_ws tables _schema_to_table _header_row rank].
  rewrite insert_app_r_alt, Nat.sub_diag by done. reflexivity.
Qed.

(** The model of [log_metrics] answers [Ok] in every well-formed state. *)
Lemma log_metrics_wrapped_ok metrics step self :
  router_wf self → (log_metrics_wrapped metrics step self).2 = Ok tt.
Proof.
  intros Hwf.
  destruct (schema_get (schema_of (full_metrics metrics step))
              (_schema_to_table self)) as [a|] eqn:Hget.
  - destruct (log_metrics_wrapped_found _ _ _ _ Hwf Hget) as (t & _ & ->). done.
  - by rewrite (log_metrics_wrapped_fresh _ _ _ Hget).
Qed.

(** *** The second loop of [save] *)

Lemma clear_buffers_lookup_gen (addrs : list nat) : ∀ (ts : list Table) i,
  foldl (λ ts a, alter (set_cells_buffer []) a ts) ts addrs !! i =
  (λ t, if bool_decide (i ∈ addrs) then set_cells_buffer [] t else t) <$> ts !! i.
Proof.
  induction addrs as [|a addrs IH]; intros ts i; simpl.
  - by destruct (ts !! i).
  - rewrite IH. destruct (decide (a = i)) as [->|Hne].
    + rewrite list_lookup_alter_eq. destruct (ts !! i) as [t|]; [|done]. simpl.
      rewrite (bool_decide_eq_true_2 (i ∈ i :: addrs)) by left.
      by destruct (bool_decide (i ∈ addrs)).
    + rewrite list_lookup_alter_ne by done.
      destruct (ts !! i) as [t|]; [|done]. simpl. f_equal.
      destruct (bool_decide_reflect (i ∈ addrs)) as [Hin|Hnin].
      * rewrite bool_decide_eq_true_2; [done | by right].
      * rewrite bool_decide_eq_false_2; [done|].
        intros Hin. apply elem_of_cons in Hin as [?|?]; congruence.
Qed.

Lemma clear_buffers_lookup self i :
  clear_buffers self !! i =
  (λ t, if bool_decide (i ∈ (_schema_to_table self).*2)
        then set_cells_buffer [] t else t) <$> tables self !! i.
Proof. apply clear_buffers_lookup_gen. Qed.

Lemma aggregated_after_clear self :
  aggregated_cell_buffers (set_tables (clear_buffers self) self) = [].
Proof.
  unfold aggregated_cell_buffers. cbn [set_tables _schema_to_table tables].
  assert (∀ addrs, addrs ⊆ (_schema_to_table self).*2 →
            (a ← addrs; from_option cells_buffer [] (clear_buffers self !! a)) = [])
    as Hgen; [|by apply Hgen].
  induction addrs as [|a addrs IH]; intros Hsub; [done|].
  cbn [mbind list_bind]. rewrite IH by (intros x Hx; apply Hsub; by right).
  rewrite clear_buffers_lookup.
  rewrite bool_decide_eq_true_2 by (apply Hsub; left).
  by destruct (tables self !! a).
Qed.

(** *** [save] in closed form *)

Lemma save_wrapped_empty n self :
  aggregated_cell_buffers self = [] → save_wrapped n self = (self, Ok tt).
Proof. intros H. unfold save_wrapped. by rewrite H. Qed.

Lemma save_wrapped_sent self :
  aggregated_cell_buffers self ≠ [] →
  save_wrapped NetOk self =
  (mkMetricsWorkSheet
     {| grid := write_cells (grid (_ws self)) (aggregated_cell_buffers self);
        calls := calls (_ws self) ++
                 [CallUpdateCells (aggregated_cell_buffers self)] |}
     (clear_buffers self) (_schema_to_table self) (_header_row self) (rank self),
   Ok tt).
Proof.
  intros H. unfold save_wrapped.
  by destruct (aggregated_cell_buffers self).
Qed.

Lemma save_wrapped_failed k self :
  aggregated_cell_buffers self ≠ [] →
  save_wrapped (NetFail k) self =
  (mkMetricsWorkSheet
     {| grid := write_cells (grid (_ws self))
                  (take k (aggregated_cell_buffers self));
        calls := calls (_ws self) ++
                 [CallUpdateCells (aggregated_cell_buffers self)] |}
     (tables self) (_schema_to_table self) (_header_row self) (rank self),
   Raise NetworkError).
Proof.
  intros H. unfold save_wrapped.
  by destruct (aggregated_cell_buffers self).
Qed.

Lemma rank_zero_only_zero {A} (fn : MetricsWorkSheet → MetricsWorkSheet * result A)
    self :
  rank self = 0 →
  rank_zero_only fn self =
  ((fn self).1, match (fn self).2 with Ok _ => Ok tt | Raise e => Raise e end).
Proof.
  intros H. unfold rank_zero_only. rewrite H. simpl. by destruct (fn self).
Qed.

Lemma rank_zero_only_other {A}
    (fn : MetricsWorkSheet → MetricsWorkSheet * result A) self :
  rank self ≠ 0 → rank_zero_only fn self = (self, Ok tt).
Proof.
  intros H. unfold rank_zero_only.
  destruct (Z.eqb_spec (rank self) 0); [done | done].
Qed.

(** *** The reachable states are closed under the operations *)

Lemma later_refl self : later self self.
Proof.
  repeat split; try done. intros a t Ht. exists t. repeat split; [done|lia].
Qed.

Lemma later_trans s1 s2 s3 : later s1 s2 → later s2 s3 → later s1 s3.
Proof.
  intros (Hh1 & Hr1 & Hd1 & Ht1) (Hh2 & Hr2 & Hd2 & Ht2).
  split; [congruence|]. split; [congruence|]. split; [auto|].
  intros a t Ht. destruct (Ht1 _ _ Ht) as (t' & Ht' & Hhdr & Hoff & Hrow).
  destruct (Ht2 _ _ Ht') as (t'' & Ht'' & Hhdr' & Hoff' & Hrow').
  exists t''. repeat split; [done | congruence | congruence | lia].
Qed.

Lemma router_wf_addresses self a :
  router_wf self → a ∈ (_schema_to_table self).*2 →
  (a < length (tables self))%nat.
Proof.
  intros [Hwf _] Hin. apply list_elem_of_fmap in Hin as ([fs a'] & -> & Hin).
  destruct (Hwf _ _ Hin) as (t & Ht & _). by apply lookup_lt_Some in Ht.
Qed.

Lemma router_wf_found self ws a t t' :
  router_wf self → tables self !! a = Some t →
  _metrics_header t' = _metrics_header t →
  router_wf (mkMetricsWorkSheet ws (<[a := t']> (tables self))
               (_schema_to_table self) (_header_row self) (rank self)).
Proof.
  intros [Hwf Hnd] Ht Hhdr. split; [|done]. intros fs b Hin. simpl.
  destruct (Hwf _ _ Hin) as (tb & Htb & Hsub).
  destruct (decide (a = b)) as [->|Hne].
  - exists t'. rewrite list_lookup_insert_eq by (by apply lookup_lt_Some in Ht).
    split; [done|]. rewrite Hhdr. by assert (t = tb) as -> by congruence.
  - exists tb. by rewrite list_lookup_insert_ne.
Qed.

Lemma router_wf_fresh self ws fs t :
  router_wf self → (∀ h, h ∈ _metrics_header t → h ∈ fs) →
  router_wf (mkMetricsWorkSheet ws (tables self ++ [t])
               (_schema_to_table self ++ [(fs, length (tables self))])
               (_header_row self) (rank self)).
Proof.
  intros Hwf Hsub. pose proof Hwf as [Hlive Hnd]. split; simpl.
  - intros fs' b Hin. apply elem_of_app in Hin as [Hin|Hin].
    + destruct (Hlive _ _ Hin) as (tb & Htb & Hb). exists tb.
      split; [|done]. by apply lookup_app_l_Some.
    + apply list_elem_of_singleton in Hin. injection Hin as -> ->.
      exists t. split; [|done]. by rewrite lookup_app_r, Nat.sub_diag.
  - rewrite fmap_app. apply NoDup_app. split; [done|]. split.
    + intros x Hx Hx'. apply list_elem_of_singleton in Hx'. subst x.
      simpl in Hx. apply (router_wf_addresses _ _ Hwf) in Hx. lia.
    + apply NoDup_singleton.
Qed.

Lemma router_wf_cleared self ws :
  router_wf self →
  router_wf (mkMetricsWorkSheet ws (clear_buffers self) (_schema_to_table self)
               (_header_row self) (rank self)).
Proof.
  intros [Hwf Hnd]. split; [|done]. intros fs a Hin. simpl.
  destruct (Hwf _ _ Hin) as (t & Ht & Hsub). rewrite clear_buffers_lookup, Ht.
  simpl. eexists. split; [done|]. by destruct (bool_decide _).
Qed.

Lemma router_wf_ws self ws :
  router_wf self →
  router_wf (mkMetricsWorkSheet ws (tables self) (_schema_to_table self)
               (_header_row self) (rank self)).
Proof. by intros [Hwf Hnd]. Qed.

Lemma later_found self ws a t row :
  tables self !! a = Some t →
  later self (mkMetricsWorkSheet ws (<[a := updated row t]> (tables self))
                (_schema_to_table self) (_header_row self) (rank self)).
Proof.
  intros Ht. repeat split; try done. simpl. intros b tb Htb.
  destruct (decide (a = b)) as [->|Hne].
  - rewrite list_lookup_insert_eq by (by apply lookup_lt_Some in Ht).
    exists (updated row t). assert (tb = t) as -> by congruence.
    repeat split; simpl; try done; lia.
  - rewrite list_lookup_insert_ne by done. exists tb.
    repeat split; simpl; try done; lia.
Qed.

Lemma later_fresh self ws fs t :
  schema_get fs (_schema_to_table self) = None →
  later self (mkMetricsWorkSheet ws (tables self ++ [t])
                (_schema_to_table self ++ [(fs, length (tables self))])
                (_header_row self) (rank self)).
Proof.
  intros Hnone. repeat split; try done; simpl.
  - intros fs' a Hget. by rewrite schema_get_snoc, Hget.
  - intros a ta Hta. exists ta. split; [by apply lookup_app_l_Some|].
    repeat split; simpl; try done; lia.
Qed.

Lemma later_cleared self ws :
  later self (mkMetricsWorkSheet ws (clear_buffers self) (_schema_to_table self)
                (_header_row self) (rank self)).
Proof.
  repeat split; try done. simpl. intros a t Ht.
  rewrite clear_buffers_lookup, Ht. simpl. eexists. split; [done|].
  destruct (bool_decide _); repeat split; simpl; try done; lia.
Qed.

Lemma later_ws self ws :
  later self (mkMetricsWorkSheet ws (tables self) (_schema_to_table self)
                (_header_row self) (rank self)).
Proof.
  repeat split; try done. simpl. intros a t Ht. exists t.
  repeat split; simpl; try done; lia.
Qed.

Lemma log_metrics_wrapped_wf_later metrics step self :
  router_wf self →
  router_wf (log_metrics_wrapped metrics step self).1 ∧
  later self (log_metrics_wrapped metrics step self).1.
Proof.
  intros Hwf.
  destruct (schema_get (schema_of (full_metrics metrics step))
              (_schema_to_table self)) as [a|] eqn:Hget.
  - destruct (log_metrics_wrapped_found _ _ _ _ Hwf Hget) as (t & Ht & ->).
    split; [by eapply router_wf_found | by apply later_found].
  - rewrite (log_metrics_wrapped_fresh _ _ _ Hget). split.
    + apply router_wf_fresh; [done|]. simpl. intros h Hin.
      apply (header_names_keys _ step); [apply full_metrics_step | done].
    + by apply later_fresh.
Qed.

Lemma save_wrapped_wf_later n self :
  router_wf self →
  router_wf (save_wrapped n self).1 ∧ later self (save_wrapped n self).1.
Proof.
  intros Hwf. destruct (decide (aggregated_cell_buffers self = [])) as [He|Hne].
  - rewrite save_wrapped_empty by done. split; [done | apply later_refl].
  - destruct n as [|k].
    + rewrite save_wrapped_sent by done.
      split; [by apply router_wf_cleared | apply later_cleared].
    + rewrite save_wrapped_failed by done.
      split; [by apply router_wf_ws | apply later_ws].
Qed.

Lemma rank_zero_only_fst {A}
    (fn : MetricsWorkSheet → MetricsWorkSheet * result A) self :
  (rank_zero_only fn self).1 = if rank self =? 0 then (fn self).1 else self.
Proof. unfold rank_zero_only. destruct (rank self =? 0); [by destruct (fn self) | done]. Qed.

Lemma step_op_wf_later o self :
  router_wf self →
  router_wf (step_op o self).1 ∧ later self (step_op o self).1.
Proof.
  intros Hwf. destruct o as [metrics step|n]; simpl;
    unfold log_metrics, save; rewrite rank_zero_only_fst;
    destruct (rank self =? 0); try (split; [done | apply later_refl]).
  - by apply log_metrics_wrapped_wf_later.
  - by apply save_wrapped_wf_later.
Qed.

Lemma run_snoc ops o self : run (ops ++ [o]) self = (step_op o (run ops self)).1.
Proof. unfold run. by rewrite foldl_app. Qed.

Lemma run_wf_later ops self :
  router_wf self → router_wf (run ops self) ∧ later self (run ops self).
Proof.
  intros Hwf. induction ops as [|o ops IH] using rev_ind.
  - split; [done | apply later_refl].
  - rewrite run_snoc. destruct IH as [IHwf IHl].
    destruct (step_op_wf_later o _ IHwf) as [Hwf' Hl'].
    split; [done | by eapply later_trans].
Qed.

(** *** The states in which every request is accepted *)

Lemma new_calls_same self : new_calls self self = [].
Proof. unfold new_calls. by rewrite drop_all. Qed.

Lemma new_calls_app self self' cs :
  calls (_ws self') = calls (_ws self) ++ cs → new_calls self self' = cs.
Proof. intros H. unfold new_calls. by rewrite H, drop_app_length. Qed.

Lemma router_wf_empty ws header_row rank0 :
  router_wf (mkMetricsWorkSheet ws [] [] header_row rank0).
Proof.
  split; simpl; [|constructor]. intros fs a Hin. by apply elem_of_nil in Hin.
Qed.

Lemma header_names_full_metrics metrics step :
  header_names (full_metrics metrics step) step = header_names metrics step.
Proof.
  unfold header_names, full_metrics. f_equal. rewrite dict_keys_set.
  case_bool_decide; [done|]. rewrite filter_app.
  rewrite (filter_cons_False _ "step") by (intros H'; by apply H').
  by rewrite filter_nil, app_nil_r.
Qed.

Lemma router_ok_empty ws header_row rank0 :
  1 ≤ header_row → router_ok (mkMetricsWorkSheet ws [] [] header_row rank0).
Proof.
  intros H. split; [apply router_wf_empty|]. split; [done | constructor].
Qed.

Lemma table_ok_updated row t : table_ok t → table_ok (updated row t).
Proof.
  intros (? & ? & ?). unfold table_ok, updated.
  cbn [_last_step _col_offset _metrics_header]. split; [lia | done].
Qed.

Lemma table_ok_new ws header_row metrics step :
  1 ≤ header_row → header_names metrics step ≠ [] →
  table_ok (new_table ws header_row metrics step).
Proof.
  intros Hrow Hne. unfold table_ok, new_table.
  cbn [_last_step _col_offset _metrics_header].
  split; [lia|]. split; [apply offset_for_pos | done].
Qed.

Lemma table_ok_accepted t :
  table_ok t →
  accepted (CallRange (_last_step t) (_col_offset t) (_last_step t)
              (last_column t)) = true.
Proof.
  intros (Hr & Hc & Hh). unfold accepted, last_column.
  assert (0 < length (_metrics_header t))%nat
    by (destruct (_metrics_header t); [done | simpl; lia]).
  rewrite !andb_true_iff, !Z.leb_le. lia.
Qed.

Lemma log_metrics_wrapped_router_ok metrics step self :
  router_ok self → names_a_column metrics step = true →
  router_ok (log_metrics_wrapped metrics step self).1 ∧
  ∃ cs, calls (_ws (log_metrics_wrapped metrics step self).1) =
          calls (_ws self) ++ cs ∧
        Forall (λ c, accepted c = true) cs ∧ (length cs ≤ 3)%nat.
Proof.
  intros (Hwf & Hrow & Hall) Hcol. apply names_a_column_spec in Hcol.
  rewrite <- header_names_full_metrics in Hcol.
  destruct (schema_get (schema_of (full_metrics metrics step))
              (_schema_to_table self)) as [a|] eqn:Hget.
  - destruct (log_metrics_wrapped_found _ _ _ _ Hwf Hget) as (t & Ht & ->).
    assert (table_ok t) as Hok by (by eapply (Forall_lookup_1 _ _ _ _ Hall)).
    cbn [fst _ws record_call calls]. split.
    + split; [by eapply router_wf_found|]. split; [done|].
      cbn [tables]. apply Forall_insert; [done | by apply table_ok_updated].
    + eexists [_]. split; [reflexivity|]. split; [|simpl; lia].
      constructor; [by apply table_ok_accepted | constructor].
  - rewrite (log_metrics_wrapped_fresh _ _ _ Hget).
    pose proof (table_ok_new (_ws self) _ _ _ Hrow Hcol) as Hok.
    cbn [fst _ws record_call read_by_init calls]. split.
    + split.
      { apply router_wf_fresh; [done|]. simpl. intros h Hin.
        apply (header_names_keys _ step); [apply full_metrics_step | done]. }
      split; [done|]. cbn [tables]. apply Forall_app. split; [done|].
      constructor; [by apply table_ok_updated | constructor].
    + eexists [_; _; _]. split; [by rewrite <- app_assoc|].
      split; [|simpl; lia].
      constructor; [by apply Z.leb_le|].
      constructor; [|constructor; [by apply table_ok_accepted | constructor]].
      apply (table_ok_accepted
               (mkTable [] (_col_offset (new_table (_ws self) (_header_row self)
                                           (full_metrics metrics step) step))
                  (_header_row self)
                  (header_names (full_metrics metrics step) step))).
      destruct Hok as (_ & Hoff & Hne). split; [done|]. by split.
Qed.

Lemma save_wrapped_router_ok n self :
  router_ok self →
  router_ok (save_wrapped n self).1 ∧
  ∃ cs, calls (_ws (save_wrapped n self).1) = calls (_ws self) ++ cs ∧
        Forall (λ c, accepted c = true) cs.
Proof.
  intros (Hwf & Hrow & Hall).
  destruct (decide (aggregated_cell_buffers self = [])) as [He|Hne].
  - rewrite save_wrapped_empty by done. split; [done|].
    exists []. by rewrite app_nil_r.
  - destruct n as [|k].
    + rewrite save_wrapped_sent by done. cbn [fst _ws calls]. split.
      * split; [by apply router_wf_cleared|]. split; [done|].
        cbn [tables]. apply Forall_lookup. intros i t' Hi.
        rewrite clear_buffers_lookup in Hi.
        destruct (tables self !! i) as [t|] eqn:Ht; [|done].
        simpl in Hi. injection Hi as <-.
        pose proof (Forall_lookup_1 _ _ _ _ Hall Ht) as Hok.
        by destruct (bool_decide _).
      * eexists [_]. split; [reflexivity|]. by repeat constructor.
    + rewrite save_wrapped_failed by done. cbn [fst _ws calls]. split.
      * split; [by apply router_wf_ws|]. by split.
      * eexists [_]. split; [reflexivity|]. by repeat constructor.
Qed.

Lemma step_op_router_ok o self :
  router_ok self → op_names_a_column o = true →
  router_ok (step_op o self).1 ∧
  ∃ cs, calls (_ws (step_op o self).1) = calls (_ws self) ++ cs ∧
        Forall (λ c, accepted c = true) cs.
Proof.
  intros Hok Hcol. destruct o as [metrics step|n]; simpl;
    unfold log_metrics, save; rewrite rank_zero_only_fst;
    destruct (rank self =? 0);
    try (split; [done|]; exists []; by rewrite app_nil_r).
  - destruct (log_metrics_wrapped_router_ok metrics step self Hok Hcol)
      as (Hok' & cs & Hcs & Hacc & _).
    split; [done|]. by exists cs.
  - by apply save_wrapped_router_ok.
Qed.

Lemma run_router_ok ops self :
  router_ok self → Forall (λ o, op_names_a_column o = true) ops →
  router_ok (run ops self) ∧
  ∃ cs, calls (_ws (run ops self)) = calls (_ws self) ++ cs ∧
        Forall (λ c, accepted c = true) cs.
Proof.
  intros Hok. induction ops as [|o ops IH] using rev_ind; intros Hops.
  - split; [done|]. exists []. by rewrite app_nil_r.
  - apply Forall_app in Hops as [Hops Ho].
    apply Forall_cons in Ho as [Ho _].
    destruct (IH Hops) as (Hok1 & cs1 & Hcs1 & Hacc1).
    rewrite run_snoc.
    destruct (step_op_router_ok o _ Hok1 Ho) as (Hok2 & cs2 & Hcs2 & Hacc2).
    split; [done|]. exists (cs1 ++ cs2).
    split; [by rewrite Hcs2, Hcs1, <- app_assoc | by apply Forall_app].
Qed.

(** A call that names no column is where the model parts from the client
    library: on a fresh router its table would have an empty header, and the
    block of its [range] requests would end at column 0. *)
Example call_without_column :
  names_a_column [] VNone = false ∧
  names_a_column [("step", VNum 99)] VNone = false ∧
  names_a_column [] (VNum 1) = true ∧
  new_calls (mkMetricsWorkSheet (mkWorksheet ∅ []) [] [] 3 0)
    (log_metrics [] VNone (mkMetricsWorkSheet (mkWorksheet ∅ []) [] [] 3 0)).1 =
    [CallRowValues 3; CallRange 3 1 3 0; CallRange 4 1 4 0] ∧
  accepted (CallRange 3 1 3 0) = false.
Proof. by vm_compute. Qed.

(** Every request of a run of calls that name a column is accepted. *)
Lemma run_accepted ops self :
  router_ok self → Forall (λ o, op_names_a_column o = true) ops →
  Forall (λ c, accepted c = true) (new_calls self (run ops self)).
Proof.
  intros Hok Hops. destruct (run_router_ok ops self Hok Hops) as (_ & cs & Hcs & Hacc).
  by rewrite (new_calls_app _ _ _ Hcs).
Qed.

(** *** The row cursor of a key-set *)

Lemma later_rank self self' : later self self' → rank self' = rank self.
Proof. by intros (_ & ? & _). Qed.

Lemma later_header_row self self' :
  later self self' → _header_row self' = _header_row self.
Proof. by intros (? & _). Qed.

Lemma assigned_row_next metrics step self :
  router_wf self →
  assigned_row metrics step self =
  Some (next_row (schema_of (full_metrics metrics step)) self).
Proof.
  intros Hwf. unfold assigned_row, next_row.
  destruct (schema_get (schema_of (full_metrics metrics step))
              (_schema_to_table self)) as [a|] eqn:Hget.
  - rewrite (get_table_found _ _ _ Hget).
    destruct Hwf as [Hwf _].
    destruct (Hwf _ _ (schema_get_elem _ _ _ Hget)) as (t & -> & _). done.
  - rewrite (get_table_fresh _ step _ Hget (full_metrics_step _ _)).
    cbn [tables]. by rewrite lookup_app_r, Nat.sub_diag.
Qed.

Lemma next_row_log_same metrics step self :
  router_wf self →
  next_row (schema_of (full_metrics metrics step))
    (log_metrics_wrapped metrics step self).1 =
  next_row (schema_of (full_metrics metrics step)) self + 1.
Proof.
  intros Hwf. unfold next_row at 2.
  destruct (schema_get (schema_of (full_metrics metrics step))
              (_schema_to_table self)) as [a|] eqn:Hget.
  - destruct (log_metrics_wrapped_found _ _ _ _ Hwf Hget) as (t & Ht & ->).
    unfold next_row. cbn [fst _schema_to_table tables]. rewrite Hget, Ht.
    by rewrite list_lookup_insert_eq by (by apply lookup_lt_Some in Ht).
  - rewrite (log_metrics_wrapped_fresh _ _ _ Hget).
    unfold next_row. cbn [fst _schema_to_table tables].
    rewrite schema_get_snoc, Hget, decide_True by done.
    by rewrite lookup_app_r, Nat.sub_diag.
Qed.

Lemma next_row_log_other fs metrics step self :
  router_wf self →
  fs ≠ schema_of (full_metrics metrics step) →
  next_row fs (log_metrics_wrapped metrics step self).1 = next_row fs self.
Proof.
  intros Hwf Hne.
  destruct (schema_get (schema_of (full_metrics metrics step))
              (_schema_to_table self)) as [a|] eqn:Hget.
  - destruct (log_metrics_wrapped_found _ _ _ _ Hwf Hget) as (t & Ht & ->).
    unfold next_row. cbn [fst _schema_to_table tables _header_row].
    destruct (schema_get fs (_schema_to_table self)) as [b|] eqn:Hb; [|done].
    rewrite list_lookup_insert_ne; [done|]. intros ->.
    destruct Hwf as [_ Hnd]. apply Hne.
    eapply (addresses_injective _ _ _ b Hnd); by apply schema_get_elem.
  - rewrite (log_metrics_wrapped_fresh _ _ _ Hget).
    unfold next_row. cbn [fst _schema_to_table tables _header_row].
    rewrite schema_get_snoc, decide_False by done.
    destruct (schema_get fs (_schema_to_table self)) as [b|] eqn:Hb; [|done].
    rewrite lookup_app_l; [done|].
    apply (router_wf_addresses _ _ Hwf), list_elem_of_fmap.
    exists (fs, b). split; [done | by apply schema_get_elem].
Qed.

Lemma next_row_save fs n self :
  next_row fs (save_wrapped n self).1 = next_row fs self.
Proof.
  destruct (decide (aggregated_cell_buffers self = [])) as [He|Hne].
  - by rewrite save_wrapped_empty.
  - destruct n as [|k].
    + rewrite save_wrapped_sent by done. unfold next_row.
      cbn [fst _schema_to_table tables _header_row].
      destruct (schema_get fs (_schema_to_table self)) as [b|]; [|done].
      rewrite clear_buffers_lookup. destruct (tables self !! b); [|done].
      simpl. by destruct (bool_decide _).
    + by rewrite save_wrapped_failed.
Qed.

Lemma calls_under_snoc fs ops o :
  calls_under fs (ops ++ [o]) =
  (calls_under fs ops + if bool_decide (op_schema o = Some fs) then 1 else 0)%nat.
Proof.
  unfold calls_under. rewrite filter_app, length_app. f_equal.
  case_bool_decide.
  - by rewrite filter_cons_True.
  - by rewrite filter_cons_False.
Qed.

Lemma next_row_step fs o self :
  rank self = 0 → router_wf self →
  next_row fs (step_op o self).1 =
  next_row fs self + if bool_decide (op_schema o = Some fs) then 1 else 0.
Proof.
  intros Hrank Hwf. destruct o as [metrics step|n]; simpl;
    unfold log_metrics, save; rewrite rank_zero_only_fst, Hrank; simpl.
  - case_bool_decide as Hfs.
    + injection Hfs as <-. by apply next_row_log_same.
    + rewrite next_row_log_other; [lia | done | congruence].
  - rewrite next_row_save. lia.
Qed.

Lemma next_row_run fs ops self :
  rank self = 0 → router_wf self →
  next_row fs (run ops self) = next_row fs self + Z.of_nat (calls_under fs ops).
Proof.
  intros Hrank Hwf. induction ops as [|o ops IH] using rev_ind.
  - simpl. unfold calls_under. simpl. lia.
  - destruct (run_wf_later ops self Hwf) as [Hwf' Hl'].
    rewrite run_snoc, next_row_step, IH, calls_under_snoc;
      [| by rewrite (later_rank _ _ Hl') | done].
    case_bool_decide; lia.
Qed.

Lemma log_metrics_last_call_accepted metrics step self :
  rank self = 0 → router_ok self → names_a_column metrics step = true →
  ∃ self' c1 c2,
    log_metrics metrics step self = (self', Ok tt) ∧
    last (calls (_ws self')) =
    Some (CallRange (next_row (schema_of (full_metrics metrics step)) self) c1
            (next_row (schema_of (full_metrics metrics step)) self) c2) ∧
    1 ≤ c1 ≤ c2.
Proof.
  intros Hrank (Hwf & Hrow & Hall) Hcol. apply names_a_column_spec in Hcol.
  rewrite <- header_names_full_metrics in Hcol.
  unfold log_metrics. rewrite rank_zero_only_zero by done. unfold next_row.
  destruct (schema_get (schema_of (full_metrics metrics step))
              (_schema_to_table self)) as [a|] eqn:Hget.
  - destruct (log_metrics_wrapped_found _ _ _ _ Hwf Hget) as (t & Ht & ->).
    pose proof (table_ok_accepted t (Forall_lookup_1 _ _ _ _ Hall Ht)) as Hacc.
    eexists _, _, _. split; [reflexivity|]. cbn [fst _ws record_call calls].
    rewrite last_snoc, Ht. split; [reflexivity|].
    unfold accepted in Hacc. rewrite !andb_true_iff, !Z.leb_le in Hacc. lia.
  - rewrite (log_metrics_wrapped_fresh _ _ _ Hget).
    pose proof (table_ok_accepted _ (table_ok_new (_ws self) _ _ _ Hrow Hcol))
      as Hacc.
    eexists _, _, _. split; [reflexivity|]. cbn [fst _ws record_call calls].
    rewrite last_snoc. split; [reflexivity|].
    unfold accepted in Hacc. rewrite !andb_true_iff, !Z.leb_le in Hacc. lia.
Qed.

(** C3.  Take a router on rank zero whose header row is a row of the sheet
    and in which the key-set of a call has no table yet, and let any
    sequence of calls follow (calls under this key-set with whatever step
    values, calls under other key-sets, saves that succeed or fail), each
    call naming a column.  The next call under the key-set is then assigned
    row header_row + 1 + n, where n counts the earlier calls under the
    key-set: the rows start at header_row + 1 and go up by exactly one per
    call, whatever the steps.  The call succeeds, its request to the
    worksheet targets that row, every request sent on the way is one the
    client library accepts, and the call after it is assigned the next
    row. *)
Theorem log_metrics_rows_consecutive self ops metrics step :
  rank self = 0 →
  router_ok self →
  Forall (λ o, op_names_a_column o = true) ops →
  names_a_column metrics step = true →
  schema_get (schema_of (full_metrics metrics step)) (_schema_to_table self)
    = None →
  let fs := schema_of (full_metrics metrics step) in
  let row := _header_row self + 1 + Z.of_nat (calls_under fs ops) in
  assigned_row metrics step (run ops self) = Some row ∧
  ∃ self' c1 c2,
    log_metrics metrics step (run ops self) = (self', Ok tt) ∧
    last (calls (_ws self')) = Some (CallRange row c1 row c2) ∧
    1 ≤ row ∧ 1 ≤ c1 ≤ c2 ∧
    Forall (λ c, accepted c = true) (new_calls self self') ∧
    ∀ metrics' step',
      schema_of (full_metrics metrics' step') = fs →
      assigned_row metrics' step' self' = Some (row + 1).
Proof.
  intros Hrank Hok Hops Hcol Hnone. cbv zeta.
  set (fs := schema_of (full_metrics metrics step)) in *.
  set (row := _header_row self + 1 + Z.of_nat (calls_under fs ops)).
  pose proof Hok as (Hwf & Hhr & _).
  destruct (run_wf_later ops self Hwf) as [Hwf1 Hl1].
  destruct (run_router_ok ops self Hok Hops) as [Hok1 _].
  pose proof (later_rank _ _ Hl1) as Hrank1. rewrite Hrank in Hrank1.
  assert (next_row fs (run ops self) = row) as Hrow.
  { rewrite next_row_run by done. unfold next_row, row. by rewrite Hnone. }
  split; [rewrite assigned_row_next by done; exact (f_equal Some Hrow)|].
  destruct (log_metrics_last_call_accepted metrics step _ Hrank1 Hok1 Hcol)
    as (self' & c1 & c2 & Hlog & Hlast & Hcols).
  exists self', c1, c2. split; [done|]. fold fs in Hlast. rewrite Hrow in Hlast.
  split; [done|]. split; [unfold row; lia|]. split; [done|]. split.
  - assert (self' = run (ops ++ [LogMetrics metrics step]) self) as ->
      by (rewrite run_snoc; simpl; by rewrite Hlog).
    apply run_accepted; [done|]. apply Forall_app. split; [done|].
    by constructor.
  - intros metrics' step' Hfs.
    pose proof (step_op_wf_later (LogMetrics metrics step) _ Hwf1) as [Hwf2 _].
    pose proof (next_row_step fs (LogMetrics metrics step) _ Hrank1 Hwf1) as Hstep.
    simpl in Hwf2, Hstep. rewrite Hlog in Hwf2, Hstep. simpl in Hwf2, Hstep.
    rewrite assigned_row_next, Hfs, Hstep, Hrow by done.
    by rewrite bool_decide_eq_true_2.
Qed.

Lemma log_metrics_rows_consecutive_witness :
  let self := mkMetricsWorkSheet (mkWorksheet ∅ []) [] [] 3 0 in
  let ops := [LogMetrics [("loss", VNum 5)] (VNum 7);
              Save NetOk;
              LogMetrics [("acc", VNum 1)] (VNum 7);
              LogMetrics [("loss", VNum 6)] (VNum 2);
              LogMetrics [("loss", VNum 4)] VNone] in
  assigned_row [("loss", VNum 9)] (VNum 2) (run ops self) = Some 7.
Proof.
  intros self ops.
  destruct (log_metrics_rows_consecutive self ops [("loss", VNum 9)] (VNum 2))
    as [Hrow _].
  - reflexivity.
  - apply router_ok_empty. lia.
  - by repeat constructor.
  - reflexivity.
  - reflexivity.
  - rewrite Hrow. vm_compute. reflexivity.
Defined.

(** ** [save]: failure and repetition *)

Lemma aggregated_all_empty self :
  Forall (λ t, cells_buffer t = []) (tables self) →
  aggregated_cell_buffers self = [].
Proof.
  intros Hall. unfold aggregated_cell_buffers.
  induction ((_schema_to_table self).*2) as [|a addrs IH]; [done|].
  cbn [mbind list_bind]. rewrite IH.
  destruct (tables self !! a) as [t|] eqn:Ht; [|done]. simpl.
  rewrite Forall_forall in Hall. rewrite (Hall t); [done|].
  by eapply list_elem_of_lookup_2.
Qed.

(** C5.  When [save] on rank zero has cells to send and the batched write
    raises, the exception reaches the caller and the local state is as
    before the call: every table, hence every pending buffer, is unchanged
    (whatever part of the batch the service applied).  A following [save]
    therefore sends the very same cells again. *)
Theorem save_failure_keeps_buffers self k :
  rank self = 0 →
  aggregated_cell_buffers self ≠ [] →
  ∃ self',
    save (NetFail k) self = (self', Raise NetworkError) ∧
    tables self' = tables self ∧
    _schema_to_table self' = _schema_to_table self ∧
    new_calls self self' = [CallUpdateCells (aggregated_cell_buffers self)] ∧
    ∀ n, new_calls self' (save n self').1 =
         [CallUpdateCells (aggregated_cell_buffers self)].
Proof.
  intros Hrank Hne. unfold save at 1.
  rewrite rank_zero_only_zero, save_wrapped_failed by done. cbn [fst snd].
  eexists. split; [reflexivity|]. split; [done|]. split; [done|].
  split; [by apply new_calls_app|].
  intros n. unfold save. rewrite rank_zero_only_fst. cbn [rank]. rewrite Hrank.
  cbn [Z.eqb]. apply new_calls_app.
  destruct n as [|k'].
  - by rewrite save_wrapped_sent.
  - by rewrite save_wrapped_failed.
Qed.

Lemma save_failure_keeps_buffers_witness :
  ∃ self',
    save (NetFail 1) sample_staged = (self', Raise NetworkError) ∧
    tables self' = tables sample_staged.
Proof.
  destruct (save_failure_keeps_buffers sample_staged 1)
    as (self' & Hsave & Htables & _).
  - reflexivity.
  - vm_compute. discriminate.
  - exists self'. split; [exact Hsave | exact Htables].
Defined.

(** C6.  A [save] while every table's buffer is empty changes nothing and
    sends nothing.  A [save] on rank zero with cells to send whose write
    goes through sends exactly one batched write, and a [save] that follows
    it directly changes nothing and sends nothing. *)
Theorem save_idempotent self :
  (Forall (λ t, cells_buffer t = []) (tables self) →
   ∀ n, save n self = (self, Ok tt) ∧
        network_writes (new_calls self (save n self).1) = 0%nat) ∧
  (rank self = 0 → aggregated_cell_buffers self ≠ [] →
   ∃ self1,
     save NetOk self = (self1, Ok tt) ∧
     new_calls self self1 = [CallUpdateCells (aggregated_cell_buffers self)] ∧
     network_writes (new_calls self self1) = 1%nat ∧
     ∀ n, save n self1 = (self1, Ok tt) ∧
          network_writes (new_calls self1 (save n self1).1) = 0%nat).
Proof.
  assert (∀ s n, aggregated_cell_buffers s = [] →
            save n s = (s, Ok tt) ∧
            network_writes (new_calls s (save n s).1) = 0%nat) as Hempty.
  { intros s n He.
    assert (save n s = (s, Ok tt)) as ->; [|by rewrite new_calls_same].
    unfold save, rank_zero_only. rewrite save_wrapped_empty by done.
    by destruct (rank s =? 0). }
  split.
  - intros Hall n. by apply Hempty, aggregated_all_empty.
  - intros Hrank Hne. unfold save at 1.
    rewrite rank_zero_only_zero, save_wrapped_sent by done. cbn [fst snd].
    eexists. split; [reflexivity|].
    assert (new_calls self
              {| _ws :=
                   {| grid := write_cells (grid (_ws self))
                                (aggregated_cell_buffers self);
                      calls := calls (_ws self) ++
                               [CallUpdateCells (aggregated_cell_buffers self)] |};
                 tables := clear_buffers self;
                 _schema_to_table := _schema_to_table self;
                 _header_row := _header_row self;
                 rank := rank self |} =
            [CallUpdateCells (aggregated_cell_buffers self)]) as Hnew
      by by apply new_calls_app.
    split; [done|]. split; [by rewrite Hnew|].
    intros n. apply Hempty. apply (aggregated_after_clear self).
Qed.

Lemma save_idempotent_witness :
  save NetOk sample_router = (sample_router, Ok tt) ∧
  ∃ self1,
    save NetOk sample_staged = (self1, Ok tt) ∧
    network_writes (new_calls sample_staged self1) = 1%nat ∧
    network_writes (new_calls self1 (save NetOk self1).1) = 0%nat.
Proof.
  split.
  - destruct (save_idempotent sample_router) as [Hempty _].
    apply Hempty. constructor.
  - destruct (save_idempotent sample_staged) as [_ Hsent].
    destruct Hsent as (self1 & Hsave & _ & Hone & Hzero).
    + reflexivity.
    + vm_compute. discriminate.
    + exists self1. split; [exact Hsave|]. split; [exact Hone|].
      exact (proj2 (Hzero NetOk)).
Defined.

(** The header of a new table is sent by the first [save] that follows the
    call that created it. *)
Lemma header_sent_with_next_save metrics step self :
  rank self = 0 →
  schema_get (schema_of (full_metrics metrics step)) (_schema_to_table self)
    = None →
  let t := new_table (_ws self) (_header_row self) (full_metrics metrics step) step in
  let self1 := (log_metrics metrics step self).1 in
  network_writes (new_calls self self1) = 0%nat ∧
  ∀ cell, cell ∈ cells_buffer t → cell ∈ aggregated_cell_buffers self1.
Proof.
  intros Hrank Hnone t self1. unfold self1, log_metrics.
  rewrite rank_zero_only_fst, Hrank. cbn [Z.eqb].
  rewrite (log_metrics_wrapped_fresh _ _ _ Hnone). cbn [fst]. split.
  - erewrite new_calls_app; [|cbn [_ws record_call read_by_init calls];
                               by rewrite <- app_assoc].
    done.
  - intros cell Hin. unfold aggregated_cell_buffers.
    cbn [_schema_to_table tables]. rewrite fmap_app, bind_app.
    apply elem_of_app. right. cbn [fmap list_fmap snd mbind list_bind].
    rewrite lookup_app_r, Nat.sub_diag by done. cbn.
    rewrite app_nil_r. apply elem_of_app. by left.
Qed.

(** The router [__init__] builds is one of the reachable states, and the
    construction on an empty worksheet takes header row 3 and writes it back
    to A1:B1. *)
Lemma MetricsWorkSheet_init_wf rank0 worksheet ws' self :
  MetricsWorkSheet_init rank0 worksheet = (ws', Ok self) →
  router_wf self ∧ rank self = rank0 ∧ tables self = [].
Proof.
  unfold MetricsWorkSheet_init. cbn [ws_acell].
  destruct (if truthy (VStr (cell_text (cell_at (grid worksheet) 1 2)))
            then py_int (VStr (cell_text (cell_at (grid worksheet) 1 2)))
            else Ok 3)
    as [hr|e]; [|done].
  intros H. injection H as _ <-. split; [apply router_wf_empty | done].
Qed.

Example MetricsWorkSheet_init_empty :
  ∃ ws' self,
    MetricsWorkSheet_init 0 (mkWorksheet ∅ []) = (ws', Ok self) ∧
    _header_row self = 3 ∧
    calls ws' =
      [CallAcell 1 2;
       CallUpdate [mkCell 1 1 (VStr "header_row"); mkCell 1 2 (VNum 3)]] ∧
    cell_at (grid ws') 1 2 = VNum 3.
Proof. eexists _, _. split; [reflexivity|]. by vm_compute. Qed.

(** ** Routing by key-set *)

Lemma routed_eq metrics step self :
  routed metrics step self =
  Ok (default (length (tables self))
        (schema_get (schema_of (full_metrics metrics step))
           (_schema_to_table self))).
Proof.
  unfold routed.
  destruct (schema_get (schema_of (full_metrics metrics step))
              (_schema_to_table self)) as [a|] eqn:Hget.
  - by rewrite (get_table_found _ _ _ Hget).
  - by rewrite (get_table_fresh _ step _ Hget (full_metrics_step _ _)).
Qed.

Lemma log_metrics_registers metrics step self :
  rank self = 0 → router_wf self →
  schema_get (schema_of (full_metrics metrics step))
    (_schema_to_table (log_metrics metrics step self).1) =
  Some (default (length (tables self))
          (schema_get (schema_of (full_metrics metrics step))
             (_schema_to_table self))).
Proof.
  intros Hrank Hwf. unfold log_metrics. rewrite rank_zero_only_fst, Hrank.
  cbn [Z.eqb].
  destruct (schema_get (schema_of (full_metrics metrics step))
              (_schema_to_table self)) as [a|] eqn:Hget.
  - by destruct (log_metrics_wrapped_found _ _ _ _ Hwf Hget) as (t & _ & ->).
  - rewrite (log_metrics_wrapped_fresh _ _ _ Hget). cbn [fst _schema_to_table].
    by rewrite schema_get_snoc, Hget, decide_True.
Qed.

Lemma run_cons o ops self : run (o :: ops) self = run ops (step_op o self).1.
Proof. done. Qed.

Lemma run_other_rank ops self : rank self ≠ 0 → run ops self = self.
Proof.
  intros Hrank. induction ops as [|o ops IH]; [done|].
  rewrite run_cons.
  assert ((step_op o self).1 = self) as ->; [|done].
  destruct o; simpl; unfold log_metrics, save;
    by rewrite rank_zero_only_other.
Qed.

(** Once a call has been routed, every later call under the same key-set is
    routed to the same table. *)
Lemma routed_stable self metrics1 step1 ops metrics2 step2 :
  router_wf self →
  schema_of (full_metrics metrics2 step2) = schema_of (full_metrics metrics1 step1) →
  ∃ a, routed metrics1 step1 self = Ok a ∧
       routed metrics2 step2 (run (LogMetrics metrics1 step1 :: ops) self) = Ok a ∧
       schema_get (schema_of (full_metrics metrics1 step1))
         (_schema_to_table (run (LogMetrics metrics1 step1 :: ops) self)) =
       (if rank self =? 0 then Some a
        else schema_get (schema_of (full_metrics metrics1 step1))
               (_schema_to_table self)).
Proof.
  intros Hwf Hfs. eexists. split; [apply routed_eq|].
  destruct (Z.eqb_spec (rank self) 0) as [Hrank|Hrank].
  - pose proof (log_metrics_registers metrics1 step1 self Hrank Hwf) as Hreg.
    destruct (step_op_wf_later (LogMetrics metrics1 step1) self Hwf) as [Hwf1 _].
    destruct (run_wf_later ops _ Hwf1) as [_ (_ & _ & Hkeep & _)].
    rewrite run_cons. apply Hkeep in Hreg. split; [|done].
    by rewrite routed_eq, Hfs, Hreg.
  - rewrite run_other_rank by done. split; [|done]. by rewrite routed_eq, Hfs.
Qed.

Lemma log_metrics_tables_fresh metrics step self :
  rank self = 0 →
  schema_get (schema_of (full_metrics metrics step)) (_schema_to_table self)
    = None →
  tables (log_metrics metrics step self).1 =
  tables self ++
  [updated (full_metrics metrics step)
     (new_table (_ws self) (_header_row self) (full_metrics metrics step) step)].
Proof.
  intros Hrank Hget. unfold log_metrics. rewrite rank_zero_only_fst, Hrank.
  cbn [Z.eqb]. by rewrite (log_metrics_wrapped_fresh _ _ _ Hget).
Qed.

Lemma log_metrics_tables_found metrics step self :
  rank self = 0 → router_wf self →
  is_Some (schema_get (schema_of (full_metrics metrics step))
             (_schema_to_table self)) →
  length (tables (log_metrics metrics step self).1) = length (tables self).
Proof.
  intros Hrank Hwf [a Hget]. unfold log_metrics.
  rewrite rank_zero_only_fst, Hrank. cbn [Z.eqb].
  destruct (log_metrics_wrapped_found _ _ _ _ Hwf Hget) as (t & _ & ->).
  cbn [fst tables]. by rewrite length_insert.
Qed.

Lemma router_wf_live self fs a :
  router_wf self → schema_get fs (_schema_to_table self) = Some a →
  is_Some (tables self !! a).
Proof.
  intros [Hwf _] Hget.
  destruct (Hwf _ _ (schema_get_elem _ _ _ Hget)) as (t & Ht & _). by exists t.
Qed.

Lemma step_in_header_names metrics step :
  "step" ∈ header_names metrics step ↔ step ≠ VNone.
Proof.
  unfold header_names. rewrite elem_of_app, list_elem_of_filter. split.
  - intros [Hin|[Hne _]]; [|done]. intros ->. simpl in Hin.
    by apply elem_of_nil in Hin.
  - intros Hne. left. destruct step; [done | left..].
Qed.

(** C10.  The mapping [log_metrics] routes always has the key [step], bound
    to the step argument, also when the metrics themselves had a [step]
    entry (the other entries keep their values); hence the key-set does not
    depend on the step, and a later call with the same metric names is routed
    to the same table whether its step is [None] or a number.  The table a
    call creates has a [step] column exactly when that call's step is not
    [None], and its header never changes afterwards.  Stated for a router
    whose header row is a row of the sheet and for calls that name a column;
    every request sent is then one the client library accepts. *)
Theorem step_key_always_present self metrics step ops :
  rank self = 0 →
  router_ok self →
  names_a_column metrics step = true →
  Forall (λ o, op_names_a_column o = true) ops →
  let fs := schema_of (full_metrics metrics step) in
  let self' := run (LogMetrics metrics step :: ops) self in
  dict_get "step" (full_metrics metrics step) = Some step ∧
  (∀ k, k ≠ "step" → dict_get k (full_metrics metrics step) = dict_get k metrics) ∧
  "step" ∈ fs ∧
  (∀ metrics' step', schema_of metrics' = schema_of metrics →
     schema_of (full_metrics metrics' step') = fs) ∧
  Forall (λ c, accepted c = true) (new_calls self self') ∧
  ∃ a,
    routed metrics step self = Ok a ∧
    (∀ metrics' step', schema_of metrics' = schema_of metrics →
       routed metrics' step' self' = Ok a) ∧
    (schema_get fs (_schema_to_table self) = None →
       a = length (tables self) ∧
       ∃ t, tables self' !! a = Some t ∧
            _metrics_header t = header_names (full_metrics metrics step) step ∧
            ("step" ∈ _metrics_header t ↔ step ≠ VNone)).
Proof.
  intros Hrank Hok Hcol Hops. pose proof Hok as (Hwf & _). cbv zeta.
  assert (∀ metrics' step', schema_of metrics' = schema_of metrics →
            schema_of (full_metrics metrics' step') =
            schema_of (full_metrics metrics step)) as Hfs.
  { intros metrics' step' Hnames. by rewrite !schema_of_full_metrics, Hnames. }
  split; [apply full_metrics_step|].
  split; [intros k Hk; by apply dict_get_set_ne|].
  split; [rewrite schema_of_full_metrics; set_solver|].
  split; [done|].
  split; [apply run_accepted; [done | by constructor]|].
  eexists. split; [apply routed_eq|]. split.
  - intros metrics' step' Hnames.
    destruct (routed_stable self metrics step ops metrics' step' Hwf
                (Hfs _ _ Hnames)) as (a & Hr1 & Hr2 & _).
    rewrite routed_eq in Hr1. by injection Hr1 as <-.
  - intros Hnone. rewrite Hnone. cbn [default]. split; [done|].
    destruct (step_op_wf_later (LogMetrics metrics step) self Hwf) as [Hwf1 _].
    destruct (run_wf_later ops _ Hwf1) as [_ (_ & _ & _ & Hkeep)].
    rewrite run_cons. simpl in Hkeep |- *.
    destruct (Hkeep (length (tables self))
                (updated (full_metrics metrics step)
                   (new_table (_ws self) (_header_row self)
                      (full_metrics metrics step) step)))
      as (t & Ht & Hhdr & _).
    { rewrite log_metrics_tables_fresh by done.
      by rewrite lookup_app_r, Nat.sub_diag. }
    exists t. split; [done|]. split; [done|].
    rewrite Hhdr. apply step_in_header_names.
Qed.

Lemma step_key_always_present_witness :
  dict_get "step" (full_metrics [("step", VNum 99); ("loss", VNum 5)] VNone)
    = Some VNone ∧
  routed [("loss", VNum 8); ("step", VNum 0)] (VNum 4)
    (run [LogMetrics [("step", VNum 99); ("loss", VNum 5)] VNone; Save NetOk]
       sample_router) = Ok 0%nat ∧
  ∃ t, tables
         (run [LogMetrics [("step", VNum 99); ("loss", VNum 5)] VNone; Save NetOk]
            sample_router) !! 0%nat = Some t ∧
       _metrics_header t = ["loss"].
Proof.
  destruct (step_key_always_present sample_router
              [("step", VNum 99); ("loss", VNum 5)] VNone [Save NetOk])
    as (Hget & _ & _ & _ & _ & a & _ & Hsame & Hnew).
  - reflexivity.
  - apply router_ok_empty. lia.
  - reflexivity.
  - by repeat constructor.
  - destruct Hnew as (-> & t & Ht & Hhdr & _); [reflexivity|].
    split; [exact Hget|]. split.
    + apply Hsame. by vm_compute.
    + exists t. split; [exact Ht | exact Hhdr].
Defined.

(** ** Column blocks *)

(** The layout [test_gspread_logger] asserts: the three tables start at
    columns A, E and I, and the step columns hold 1..20, the multiples of 3
    and the multiples of 5 from row 4 on. *)
Example test_gspread_logger_layout :
  let self := run test_gspread_logger sample_router in
  _col_offset <$> tables self = [1; 5; 9] ∧
  (λ r, cell_at (grid (_ws self)) r 1) <$> seqZ 4 20 = VNum <$> seqZ 1 20 ∧
  (λ r, cell_at (grid (_ws self)) r 5) <$> seqZ 4 6 =
    VNum <$> [3; 6; 9; 12; 15; 18] ∧
  (λ r, cell_at (grid (_ws self)) r 9) <$> seqZ 4 3 = VNum <$> [5; 10; 15].
Proof. vm_compute. done. Qed.

(** A new table takes its offset from the remote header row alone, and
    [log_metrics] never writes to the remote grid: two tables created with
    no [save] in between get the same offset. *)
Lemma log_metrics_grid metrics step self :
  router_wf self →
  grid (_ws (log_metrics metrics step self).1) = grid (_ws self).
Proof.
  intros Hwf. unfold log_metrics. rewrite rank_zero_only_fst.
  destruct (rank self =? 0); [|done].
  destruct (schema_get (schema_of (full_metrics metrics step))
              (_schema_to_table self)) as [a|] eqn:Hget.
  - by destruct (log_metrics_wrapped_found _ _ _ _ Hwf Hget) as (t & _ & ->).
  - by rewrite (log_metrics_wrapped_fresh _ _ _ Hget).
Qed.

Lemma same_offset_without_save self metrics1 step1 metrics2 step2 :
  rank self = 0 → router_wf self →
  schema_get (schema_of (full_metrics metrics1 step1)) (_schema_to_table self)
    = None →
  schema_get (schema_of (full_metrics metrics2 step2)) (_schema_to_table self)
    = None →
  schema_of (full_metrics metrics1 step1) ≠ schema_of (full_metrics metrics2 step2) →
  ∃ t1 t2,
    tables (run [LogMetrics metrics1 step1; LogMetrics metrics2 step2] self) =
    tables self ++ [t1; t2] ∧
    _col_offset t1 = _col_offset t2.
Proof.
  intros Hrank Hwf Hn1 Hn2 Hne.
  destruct (step_op_wf_later (LogMetrics metrics1 step1) self Hwf) as [Hwf1 Hl1].
  pose proof (log_metrics_grid metrics1 step1 self Hwf) as Hgrid.
  pose proof (later_rank _ _ Hl1) as Hrank1. rewrite Hrank in Hrank1.
  pose proof (later_header_row _ _ Hl1) as Hhr.
  simpl in Hwf1, Hrank1, Hhr. rewrite !run_cons. simpl.
  assert (schema_get (schema_of (full_metrics metrics2 step2))
            (_schema_to_table (log_metrics metrics1 step1 self).1) = None) as Hn2'.
  { unfold log_metrics. rewrite rank_zero_only_fst, Hrank. cbn [Z.eqb].
    rewrite (log_metrics_wrapped_fresh _ _ _ Hn1). cbn [fst _schema_to_table].
    rewrite schema_get_snoc, Hn2. by rewrite decide_False. }
  rewrite (log_metrics_tables_fresh metrics2 step2 _ Hrank1 Hn2').
  rewrite (log_metrics_tables_fresh metrics1 step1 _ Hrank Hn1).
  eexists _, _. split; [by rewrite <- app_assoc|].
  unfold updated, new_table, ws_row_values. cbn [_col_offset snd].
  by rewrite Hgrid, Hhr.
Qed.

(** The mechanism does work for header cells that have reached the remote
    row: a new table starts at least two columns beyond every non-blank
    cell of that row. *)
Lemma last_col_ge (g : gmap (Z * Z) value) r c v :
  g !! (r, c) = Some v → blank v = false → c ≤ last_col g r.
Proof.
  unfold last_col. revert c v.
  apply (map_fold_weak_ind
           (λ acc (m : gmap (Z * Z) value),
              ∀ c v, m !! (r, c) = Some v → blank v = false → c ≤ acc)).
  - intros c v Hc. by rewrite lookup_empty in Hc.
  - intros [r' c'] x m acc Hfresh IH c v Hc Hv. simpl.
    destruct (decide ((r', c') = (r, c))) as [Heq|Hne].
    + injection Heq as -> ->. rewrite lookup_insert_eq in Hc.
      injection Hc as ->. rewrite bool_decide_eq_true_2, Hv by done. simpl. lia.
    + rewrite lookup_insert_ne in Hc by done. specialize (IH c v Hc Hv).
      destruct (bool_decide (r' = r) && negb (blank x)); lia.
Qed.

Lemma offset_beyond_flushed_header ws header_row c v :
  grid ws !! (header_row, c) = Some v → blank v = false → 1 ≤ c →
  c + 2 ≤ offset_for (ws_row_values header_row ws).2.
Proof.
  intros Hc Hv Hpos. pose proof (last_col_ge _ _ _ _ Hc Hv) as Hle.
  unfold offset_for, ws_row_values. cbn [snd].
  rewrite length_fmap, length_seqZ.
  rewrite bool_decide_eq_false_2; [lia|].
  intros Hnil. apply (f_equal length) in Hnil.
  rewrite length_fmap, length_seqZ in Hnil. simpl in Hnil. lia.
Qed.

(** C1 (code defect).  On a fresh router, two calls under different
    key-sets with no [save] between them create two tables that both start
    at column 1 and both span columns 1..2: the blocks overlap. *)
Theorem two_key_sets_without_save_overlap :
  ∃ t1 t2,
    tables (run two_key_sets sample_router) = [t1; t2] ∧
    _schema_to_table (run two_key_sets sample_router) =
      [({["loss"; "step"]}, 0%nat); ({["val_loss"; "step"]}, 1%nat)] ∧
    (_col_offset t1, last_column t1) = (1, 2) ∧
    (_col_offset t2, last_column t2) = (1, 2) ∧
    columns_overlap t1 t2.
Proof.
  eexists _, _. split; [vm_compute; reflexivity|].
  split; [by vm_compute|]. split; [done|]. split; [done|].
  exists 1. by vm_compute.
Qed.

(** C7 (code defect).  On a fresh router a call under the key-set
    {loss, step} is followed, with no [save] between them, by a call under
    the key-set {val_loss, step}, which no call has had before.  The second
    call does construct a new table object, at a fresh address, and the
    first table stays as it is; but the columns of the new table are not
    new: its block is the block of the first table, and the header and the
    row it stages are addressed to the very cells the first table staged. *)
Theorem new_key_set_takes_old_columns :
  let self1 := run [LogMetrics [("loss", VNum 1)] (VNum 1)] sample_router in
  let self2 := (log_metrics [("val_loss", VNum 2)] (VNum 1) self1).1 in
  schema_get (schema_of (full_metrics [("val_loss", VNum 2)] (VNum 1)))
    (_schema_to_table self1) = None ∧
  routed [("val_loss", VNum 2)] (VNum 1) self1 = Ok 1%nat ∧
  ∃ t1 t2,
    tables self1 = [t1] ∧
    tables self2 = [t1; t2] ∧
    _metrics_header t1 = ["step"; "loss"] ∧
    _metrics_header t2 = ["step"; "val_loss"] ∧
    (_col_offset t2, last_column t2) = (_col_offset t1, last_column t1) ∧
    (λ c, (cell_row c, cell_col c)) <$> cells_buffer t2 =
    (λ c, (cell_row c, cell_col c)) <$> cells_buffer t1.
Proof.
  cbv zeta. split; [by vm_compute|]. split; [by vm_compute|].
  eexists _, _. split; [vm_compute; reflexivity|].
  split; [vm_compute; reflexivity|]. by vm_compute.
Qed.

(** ** class GDriveLogger: the version *)

(** What [_get_next_version] computes once the root folder is known: one more
    than the largest run among the live [version_<n>] folders. *)
Example get_next_version_sample :
  _get_next_version
    (mkGDriveLogger (Some "lightning_logs") sample_drive None (Some (FileId 0)) None)
  = Ok 4.
Proof. vm_compute. reflexivity. Qed.

Example get_next_version_none :
  _get_next_version
    (mkGDriveLogger (Some "lightning_logs") (take 1 sample_drive) None
       (Some (FileId 0)) None)
  = Ok 0.
Proof. vm_compute. reflexivity. Qed.

(** Line 114 assigns the argument to [_version] after the resolution: an
    initialiser that completes leaves the [version] property equal to the
    argument, whatever was resolved. *)
Lemma version_is_the_argument name version0 self self' :
  GDriveLogger_init name version0 self = (self', Ok tt) →
  version self' = Ok version0.
Proof.
  unfold GDriveLogger_init. intros H.
  destruct (match version0 with
            | VersionNone =>
                match _get_next_version self with
                | Ok n => Ok (VersionInt n)
                | Raise e => Raise e
                end
            | _ => Ok version0
            end) as [v|e]; [|done].
  repeat match type of H with
         | context [_find_or_create_folder ?n ?p ?d] =>
             destruct (_find_or_create_folder n p d)
         end.
  by injection H as <-.
Qed.

(** C4 (code defect).  Constructed with [version=None] on any drive, the
    initialiser calls [_get_next_version] at line 107, which reads
    [self.root_folder_id] before line 115 has assigned it: the construction
    raises [AttributeError] and no version is resolved. *)
Theorem version_None_raises name d :
  GDriveLogger_init name VersionNone (GDriveLogger_new name d) =
  (GDriveLogger_new name d, Raise (AttributeError "root_folder_id")).
Proof. reflexivity. Qed.

(** Had the attribute been assigned beforehand, the resolution would run
    and line 114 would still reset the property to [None]. *)
Example version_None_overwritten :
  ∃ self',
    GDriveLogger_init "lightning_logs" VersionNone
      (mkGDriveLogger (Some "lightning_logs") sample_drive None
         (Some (FileId 0)) None) = (self', Ok tt) ∧
    version self' = Ok VersionNone ∧
    title <$> drive self' =
      (title <$> sample_drive) ++ ["version_4"].
Proof. eexists. split; [vm_compute; reflexivity|]. by vm_compute. Qed.

(** * Further properties of the code *)

(** ** Integers and their decimal text *)

Lemma string_app_assoc (s1 s2 s3 : string) :
  (s1 +:+ s2) +:+ s3 = s1 +:+ (s2 +:+ s3).
Proof.
  induction s1 as [|a s1 IH]; [done|].
  change (String a ((s1 +:+ s2) +:+ s3) = String a (s1 +:+ s2 +:+ s3)).
  by rewrite IH.
Qed.

Lemma pretty_N_go_app x : ∀ s, pretty_N_go x s = pretty_N_go x "" +:+ s.
Proof.
  induction (N.lt_wf_0 x) as [x _ IH]; intros s.
  destruct (decide (x = 0)%N) as [->|Hx]; [done|].
  assert (x `div` 10 < x)%N as Hlt by (apply N.div_lt; lia).
  rewrite !(pretty_N_go_step x) by lia.
  rewrite (IH _ Hlt (String _ s)), (IH _ Hlt (String _ "")).
  by rewrite string_app_assoc.
Qed.

Lemma digits_to_Z_app s1 : ∀ acc s2,
  digits_to_Z acc (s1 +:+ s2) =
  match digits_to_Z acc s1 with
  | Some a => digits_to_Z a s2
  | None => None
  end.
Proof.
  induction s1 as [|a s1 IH]; intros acc s2; simpl; [done|].
  destruct (digit_of a); [apply IH | done].
Qed.

Lemma digit_of_pretty_N_char m :
  (m < 10)%N → digit_of (pretty_N_char m) = Some (Z.of_N m).
Proof.
  intros Hm.
  assert (m = 0 ∨ m = 1 ∨ m = 2 ∨ m = 3 ∨ m = 4 ∨ m = 5 ∨ m = 6 ∨ m = 7 ∨
          m = 8 ∨ m = 9)%N as Hcases by lia.
  repeat (destruct Hcases as [->|Hcases]; [reflexivity|]). by subst.
Qed.

Lemma digits_to_Z_pretty_N_go x :
  digits_to_Z 0 (pretty_N_go x "") = Some (Z.of_N x).
Proof.
  induction (N.lt_wf_0 x) as [x _ IH].
  destruct (decide (x = 0)%N) as [->|Hx]; [done|].
  assert (x `div` 10 < x)%N as Hlt by (apply N.div_lt; lia).
  rewrite pretty_N_go_step, pretty_N_go_app, digits_to_Z_app by lia.
  rewrite (IH _ Hlt). simpl.
  rewrite digit_of_pretty_N_char by (apply N.mod_lt; lia). simpl. f_equal.
  rewrite (N.div_mod x 10) at 3 by lia. lia.
Qed.

Lemma pretty_N_go_pos_nonempty x : (0 < x)%N → pretty_N_go x "" ≠ "".
Proof.
  intros Hx He. pose proof (digits_to_Z_pretty_N_go x) as H.
  rewrite He in H. simpl in H. injection H. lia.
Qed.

Lemma digits_to_Z_pretty_positive p :
  digits_to_Z 0 (pretty p) = Some (Z.pos p) ∧ pretty p ≠ "".
Proof.
  unfold pretty, pretty_positive, pretty, pretty_N.
  rewrite decide_False by done. split.
  - by rewrite digits_to_Z_pretty_N_go.
  - by apply pretty_N_go_pos_nonempty.
Qed.

Lemma split_on_digits s : ∀ acc n,
  digits_to_Z acc s = Some n → split_on "_" s = [s].
Proof.
  induction s as [|a s IH]; intros acc n H; simpl in *; [done|].
  destruct (digit_of a) as [d|] eqn:Hd; [|done].
  destruct (decide (a = "_"%char)) as [->|_]; [done|].
  by rewrite (IH _ _ H).
Qed.

Lemma digit_not_space a d : digit_of a = Some d → is_space a = false.
Proof.
  unfold digit_of, is_space. set (n := Z.of_nat (nat_of_ascii a)).
  destruct (Z.leb_spec 48 n), (Z.leb_spec n 57); simpl; try done. intros _.
  rewrite orb_false_iff, andb_false_iff, !Z.leb_gt, Z.eqb_neq. lia.
Qed.

Lemma lstrip_digits s acc n : digits_to_Z acc s = Some n → lstrip s = s.
Proof.
  destruct s as [|a s]; [done|]. simpl.
  destruct (digit_of a) as [d|] eqn:Hd; [|done]. intros _.
  by rewrite (digit_not_space _ _ Hd).
Qed.

Lemma rstrip_digits s : ∀ acc n, digits_to_Z acc s = Some n → rstrip s = s.
Proof.
  induction s as [|a s IH]; intros acc n H; [done|]. simpl in *.
  destruct (digit_of a) as [d|] eqn:Hd; [|done].
  rewrite (IH _ _ H), (digit_not_space _ _ Hd). by destruct s.
Qed.

Lemma unsigned_of_string_digits s n :
  s ≠ "" → digits_to_Z 0 s = Some n → unsigned_of_string s = Some n.
Proof.
  intros Hne H. unfold unsigned_of_string. rewrite (split_on_digits _ _ _ H).
  cbn [forallb String.concat]. unfold digit_group. rewrite H.
  by destruct s.
Qed.

Lemma int_of_string_digits s n :
  s ≠ "" → digits_to_Z 0 s = Some n → int_of_string s = Some n.
Proof.
  intros Hne H. unfold int_of_string.
  rewrite (lstrip_digits _ _ _ H), (rstrip_digits _ _ _ H).
  destruct s as [|a s]; [done|]. pose proof H as H'. simpl in H'.
  destruct (digit_of a) as [d|] eqn:Hd; [|done].
  destruct (decide (a = "-"%char)) as [->|_]; [done|].
  destruct (decide (a = "+"%char)) as [->|_]; [done|].
  by apply unsigned_of_string_digits.
Qed.

(** [int(str(n)) = n]: the decimal text of an integer is parsed back to it. *)
Lemma int_of_string_pretty (n : Z) : int_of_string (pretty n) = Some n.
Proof.
  destruct n as [|p|p]; [done|..].
  - destruct (digits_to_Z_pretty_positive p) as [Hd Hne].
    by apply int_of_string_digits.
  - destruct (digits_to_Z_pretty_positive p) as [Hd Hne].
    change (pretty (Z.neg p)) with (String "-" (pretty p)).
    unfold int_of_string. change (lstrip (String "-" (pretty p)))
      with (String "-" (pretty p)).
    cbn [rstrip]. rewrite (rstrip_digits _ _ _ Hd).
    destruct (pretty p) as [|a s] eqn:E; [done|].
    rewrite decide_True by done.
    by rewrite (unsigned_of_string_digits _ _ (λ H, Hne H) Hd).
Qed.

(** [int] on text with white space around the number, with grouped digits,
    and on text it refuses. *)
Example int_of_string_samples :
  int_of_string " 8" = Some 8 ∧ int_of_string "1_0" = Some 10 ∧
  int_of_string "-12 " = Some (-12) ∧ int_of_string "+007" = Some 7 ∧
  int_of_string "" = None ∧ int_of_string " " = None ∧
  int_of_string "+ 5" = None ∧ int_of_string "1__0" = None ∧
  int_of_string "_1" = None ∧ int_of_string "1_" = None ∧
  int_of_string "3.0" = None ∧ int_of_string "three" = None.
Proof. by vm_compute. Qed.

Lemma pretty_Z_nonempty (n : Z) : pretty n ≠ "".
Proof.
  intros H. pose proof (int_of_string_pretty n) as Hn. by rewrite H in Hn.
Qed.

Lemma split_on_pretty (n : Z) : split_on "_" (pretty n) = [pretty n].
Proof.
  destruct n as [|p|p]; [done|..].
  - destruct (digits_to_Z_pretty_positive p) as [Hd _].
    by eapply split_on_digits.
  - destruct (digits_to_Z_pretty_positive p) as [Hd _].
    change (pretty (Z.neg p)) with (String "-" (pretty p)).
    cbn [split_on]. rewrite decide_False by done.
    by rewrite (split_on_digits _ _ _ Hd).
Qed.

(** ** Constructing the router, finalising, and the other ranks *)

Lemma write_two_cells_lookup (g : gmap (Z * Z) value) c1 c2 :
  write_cells g [c1; c2] =
  <[(cell_row c2, cell_col c2) := cell_value c2]>
    (<[(cell_row c1, cell_col c1) := cell_value c1]> g).
Proof. reflexivity. Qed.

Lemma truthy_cell_text v : truthy (VStr (cell_text v)) = negb (blank v).
Proof.
  destruct v as [|n|s|n]; cbn [truthy cell_text blank]; try done;
    by rewrite bool_decide_eq_false_2 by apply pretty_Z_nonempty.
Qed.

Lemma MetricsWorkSheet_init_closed rank0 worksheet ws' self :
  MetricsWorkSheet_init rank0 worksheet = (ws', Ok self) →
  ∃ n,
    (if blank (cell_at (grid worksheet) 1 2) then Some 3
     else int_of_string (cell_text (cell_at (grid worksheet) 1 2))) = Some n ∧
    ws' = ws_update [mkCell 1 1 (VStr "header_row"); mkCell 1 2 (VNum n)]
            (record_call (CallAcell 1 2) worksheet) ∧
    self = mkMetricsWorkSheet ws' [] [] n rank0.
Proof.
  unfold MetricsWorkSheet_init. cbn [ws_acell]. rewrite truthy_cell_text.
  cbn [py_int]. intros H.
  destruct (blank (cell_at (grid worksheet) 1 2)); cbn [negb] in H.
  - exists 3. split; [done|]. by injection H as <- <-.
  - destruct (int_of_string (cell_text (cell_at (grid worksheet) 1 2)))
      as [n|]; [|done].
    exists n. split; [done|]. by injection H as <- <-.
Qed.

Lemma MetricsWorkSheet_init_cells rank0 worksheet ws' self :
  MetricsWorkSheet_init rank0 worksheet = (ws', Ok self) →
  grid ws' !! (1, 1) = Some (VStr "header_row") ∧
  grid ws' !! (1, 2) = Some (VNum (_header_row self)) ∧
  ∀ r c, (r, c) ≠ (1, 1) → (r, c) ≠ (1, 2) →
         grid ws' !! (r, c) = grid worksheet !! (r, c).
Proof.
  intros H. destruct (MetricsWorkSheet_init_closed _ _ _ _ H) as (n & _ & -> & ->).
  unfold ws_update, record_call. cbn [grid _header_row].
  rewrite write_two_cells_lookup. cbn [cell_row cell_col cell_value].
  split; [by rewrite lookup_insert_ne, lookup_insert_eq|].
  split; [by rewrite lookup_insert_eq|].
  intros r c H1 H2. by rewrite !lookup_insert_ne.
Qed.

(** X1.  [MetricsWorkSheet.__init__] resolves the header row from cell B1: 3 when
    the cell is blank, and otherwise what [int] makes of the text of the
    cell, also when that is 0; and it writes the row back.  When the
    construction succeeds it has sent two requests, the read of B1 and the
    write of A1:B1; afterwards B1 holds the header row as a number, A1 the
    label, every other cell is as it was, and the router has no table. *)
Theorem MetricsWorkSheet_init_header_row rank0 worksheet ws' self :
  MetricsWorkSheet_init rank0 worksheet = (ws', Ok self) →
  (blank (cell_at (grid worksheet) 1 2) = true → _header_row self = 3) ∧
  (blank (cell_at (grid worksheet) 1 2) = false →
     int_of_string (cell_text (cell_at (grid worksheet) 1 2))
     = Some (_header_row self)) ∧
  _ws self = ws' ∧
  calls ws' =
    calls worksheet ++
    [CallAcell 1 2;
     CallUpdate [mkCell 1 1 (VStr "header_row");
                 mkCell 1 2 (VNum (_header_row self))]] ∧
  cell_at (grid ws') 1 1 = VStr "header_row" ∧
  cell_at (grid ws') 1 2 = VNum (_header_row self) ∧
  (∀ r c, (r, c) ≠ (1, 1) → (r, c) ≠ (1, 2) →
          grid ws' !! (r, c) = grid worksheet !! (r, c)) ∧
  tables self = [] ∧ _schema_to_table self = [] ∧ rank self = rank0.
Proof.
  intros H. destruct (MetricsWorkSheet_init_cells _ _ _ _ H) as (Ha1 & Hb1 & Hrest).
  destruct (MetricsWorkSheet_init_closed _ _ _ _ H) as (n & Hn & Hws & ->).
  cbn [_header_row _ws tables _schema_to_table rank] in *.
  split; [intros Hf; rewrite Hf in Hn; by injection Hn as <-|].
  split; [intros Ht; by rewrite Ht in Hn|].
  split; [done|].
  split; [rewrite Hws; unfold ws_update, record_call; cbn [calls];
          by rewrite <- app_assoc|].
  unfold cell_at. by rewrite Ha1, Hb1.
Qed.

Lemma MetricsWorkSheet_init_header_row_witness :
  ∃ ws' self,
    MetricsWorkSheet_init 0 (mkWorksheet {[ (1, 2) := VNum 0 ]} []) = (ws', Ok self) ∧
    _header_row self = 0 ∧ cell_at (grid ws') 1 2 = VNum 0.
Proof.
  pose proof (MetricsWorkSheet_init_header_row 0
                (mkWorksheet {[ (1, 2) := VNum 0 ]} [])) as H.
  edestruct H as (_ & Hhr & _ & _ & _ & Hb1 & _); [vm_compute; reflexivity|].
  eexists _, _. split; [vm_compute; reflexivity|].
  split; [reflexivity | exact Hb1].
Defined.

(** X2.  When B1 holds ASCII text that [int] does not take for an integer, the
    construction raises [ValueError] after its one read request: nothing is
    written and the grid is untouched.  Text such as [" 8"] or ["1_0"] is an
    integer for [int]. *)
Theorem MetricsWorkSheet_init_bad_header rank0 worksheet s :
  cell_at (grid worksheet) 1 2 = VStr s →
  s ≠ "" →
  is_ascii s = true →
  int_of_string s = None →
  ∃ ws',
    MetricsWorkSheet_init rank0 worksheet = (ws', Raise ValueError) ∧
    grid ws' = grid worksheet ∧
    calls ws' = calls worksheet ++ [CallAcell 1 2] ∧
    network_writes (calls ws') = network_writes (calls worksheet).
Proof.
  intros Hb1 Hne _ Hint. unfold MetricsWorkSheet_init. cbn [ws_acell].
  rewrite Hb1. cbn [cell_text truthy py_int].
  rewrite bool_decide_eq_false_2 by done.
  cbn [negb]. rewrite Hint. eexists. split; [reflexivity|].
  split; [done|]. split; [done|]. by apply network_writes_read.
Qed.

Lemma MetricsWorkSheet_init_bad_header_witness :
  ∃ ws',
    MetricsWorkSheet_init 0 (mkWorksheet {[ (1, 2) := VStr "three" ]} [])
      = (ws', Raise ValueError) ∧
    grid ws' = {[ (1, 2) := VStr "three" ]}.
Proof.
  destruct (MetricsWorkSheet_init_bad_header 0
              (mkWorksheet {[ (1, 2) := VStr "three" ]} []) "three")
    as (ws' & Hinit & Hgrid & _);
    [reflexivity | done | reflexivity | reflexivity |].
  exists ws'. split; [exact Hinit | exact Hgrid].
Defined.

(** X3.  Reopening: a router constructed on the worksheet an earlier construction
    left behind resolves the same header row, and leaves the grid as it
    found it.  (Stated for a header row other than 0.) *)
Theorem MetricsWorkSheet_init_reopen rank0 rank1 worksheet ws' self :
  MetricsWorkSheet_init rank0 worksheet = (ws', Ok self) →
  _header_row self ≠ 0 →
  ∃ ws'' self',
    MetricsWorkSheet_init rank1 ws' = (ws'', Ok self') ∧
    _header_row self' = _header_row self ∧
    grid ws'' = grid ws'.
Proof.
  intros Hinit Hnz.
  destruct (MetricsWorkSheet_init_cells _ _ _ _ Hinit) as (Ha1 & Hb1 & _).
  unfold MetricsWorkSheet_init. cbn [ws_acell]. rewrite truthy_cell_text.
  unfold cell_at. rewrite Hb1.
  unfold default. cbn [from_option]. unfold Datatypes.id.
  cbn [blank negb cell_text py_int]. rewrite int_of_string_pretty.
  eexists _, _. split; [reflexivity|]. split; [done|].
  unfold ws_update, record_call. cbn [grid]. rewrite write_two_cells_lookup.
  cbn [cell_row cell_col cell_value].
  rewrite (insert_id _ (1, 1)) by done. by rewrite insert_id.
Qed.

Lemma MetricsWorkSheet_init_reopen_witness :
  ∃ ws' self ws'' self',
    MetricsWorkSheet_init 0 (mkWorksheet ∅ []) = (ws', Ok self) ∧
    MetricsWorkSheet_init 0 ws' = (ws'', Ok self') ∧
    _header_row self' = 3.
Proof.
  pose proof (MetricsWorkSheet_init_reopen 0 0 (mkWorksheet ∅ [])) as H.
  edestruct H as (ws'' & self' & Hinit & Hhr & _);
    [vm_compute; reflexivity | done |].
  eexists _, _, ws'', self'. split; [vm_compute; reflexivity|].
  split; [exact Hinit | exact Hhr].
Defined.

(** X4.  In a state in which every table sends requests the client library
    accepts, a [log_metrics] call that names a column returns normally and
    only reads from the worksheet: the grid is unchanged, no write request is
    sent, at most three read requests are (one for a known key-set), each of
    them accepted, and the state reached is such a state again. *)
Theorem log_metrics_reads_only metrics step self :
  router_ok self →
  names_a_column metrics step = true →
  ∃ self',
    log_metrics metrics step self = (self', Ok tt) ∧
    router_ok self' ∧
    grid (_ws self') = grid (_ws self) ∧
    network_writes (new_calls self self') = 0%nat ∧
    (length (new_calls self self') ≤ 3)%nat ∧
    Forall (λ c, accepted c = true) (new_calls self self') ∧
    (rank self = 0 →
     is_Some (schema_get (schema_of (full_metrics metrics step))
                (_schema_to_table self)) →
     length (new_calls self self') = 1%nat).
Proof.
  intros Hok Hcol. pose proof Hok as (Hwf & _). unfold log_metrics.
  destruct (Z.eqb_spec (rank self) 0) as [Hrank|Hrank].
  - rewrite rank_zero_only_zero by done.
    destruct (log_metrics_wrapped_router_ok metrics step self Hok Hcol)
      as (Hok' & cs & Hcs & Hacc & Hlen).
    destruct (schema_get (schema_of (full_metrics metrics step))
                (_schema_to_table self)) as [a|] eqn:Hget.
    + destruct (log_metrics_wrapped_found _ _ _ _ Hwf Hget) as (t & Ht & Heq).
      rewrite Heq in Hok', Hcs |- *. cbn [fst snd] in *.
      eexists. split; [reflexivity|]. split; [done|]. split; [done|].
      rewrite (new_calls_app _ _ _ Hcs).
      cbn [_ws record_call calls] in Hcs. apply app_inv_head in Hcs as <-.
      repeat split; try done; simpl; lia.
    + rewrite (log_metrics_wrapped_fresh _ _ _ Hget) in Hok', Hcs |- *.
      cbn [fst snd] in *.
      eexists. split; [reflexivity|]. split; [done|]. split; [done|].
      rewrite (new_calls_app _ _ _ Hcs).
      cbn [_ws record_call read_by_init calls] in Hcs.
      rewrite <- app_assoc in Hcs. apply app_inv_head in Hcs as <-.
      repeat split; try done; try (simpl; lia); by intros _ [? ?].
  - rewrite rank_zero_only_other by done. exists self.
    rewrite new_calls_same. split; [done|]. split; [done|]. split; [done|].
    split; [done|]. split; [simpl; lia|]. split; [constructor|]. intros ?. done.
Qed.

Lemma log_metrics_reads_only_witness :
  ∃ self',
    log_metrics [("loss", VNum 5)] (VNum 1) sample_router = (self', Ok tt) ∧
    grid (_ws self') = grid (_ws sample_router).
Proof.
  destruct (log_metrics_reads_only [("loss", VNum 5)] (VNum 1) sample_router)
    as (self' & Hlog & _ & Hgrid & _); [apply router_ok_empty; lia | reflexivity |].
  exists self'. split; [exact Hlog | exact Hgrid].
Defined.

(** X5.  [finalize] is [save], whatever the status; on rank zero with a working
    network it leaves no cell pending. *)
Theorem finalize_is_save n status self :
  finalize n status self = save n self ∧
  (rank self = 0 →
   aggregated_cell_buffers (finalize NetOk status self).1 = []).
Proof.
  assert (∀ n', finalize n' status self = save n' self) as Heq.
  { intros n'. unfold finalize.
    destruct (Z.eqb_spec (rank self) 0) as [Hrank|Hrank].
    - rewrite rank_zero_only_zero by done.
      destruct (save n' self) as [self' [[]|e]]; done.
    - rewrite rank_zero_only_other by done. unfold save.
      by rewrite rank_zero_only_other. }
  split; [apply Heq|]. intros Hrank. rewrite Heq. unfold save.
  rewrite rank_zero_only_fst, Hrank. cbn [Z.eqb].
  destruct (decide (aggregated_cell_buffers self = [])) as [He|Hne].
  - by rewrite save_wrapped_empty.
  - rewrite save_wrapped_sent by done. apply (aggregated_after_clear self).
Qed.

Lemma finalize_is_save_witness :
  finalize NetOk "success" sample_staged = save NetOk sample_staged ∧
  aggregated_cell_buffers (finalize NetOk "failed" sample_staged).1 = [].
Proof.
  split.
  - exact (proj1 (finalize_is_save NetOk "success" sample_staged)).
  - apply (proj2 (finalize_is_save NetOk "failed" sample_staged)). reflexivity.
Defined.

(** *** Retrying a failed [save] *)

Lemma write_cell_twice (g : gmap (Z * Z) value) c d :
  (cell_row c, cell_col c) = (cell_row d, cell_col d) →
  write_cell (write_cell g c) d = write_cell g d.
Proof. intros H. unfold write_cell. rewrite H. apply insert_insert_eq. Qed.

Lemma write_cell_swap (g : gmap (Z * Z) value) c d :
  (cell_row c, cell_col c) ≠ (cell_row d, cell_col d) →
  write_cell (write_cell g c) d = write_cell (write_cell g d) c.
Proof. intros H. unfold write_cell. by apply insert_insert_ne. Qed.

Lemma write_cells_overwrite cs : ∀ (g : gmap (Z * Z) value) c,
  (cell_row c, cell_col c) ∈ (λ d, (cell_row d, cell_col d)) <$> cs →
  write_cells (write_cell g c) cs = write_cells g cs.
Proof.
  induction cs as [|d cs IH]; intros g c Hin; [by apply elem_of_nil in Hin|].
  unfold write_cells. cbn [foldl]. fold (write_cells (write_cell (write_cell g c) d) cs).
  fold (write_cells (write_cell g d) cs).
  destruct (decide ((cell_row c, cell_col c) = (cell_row d, cell_col d))) as [He|Hne].
  - by rewrite write_cell_twice.
  - rewrite write_cell_swap by done. apply IH.
    rewrite fmap_cons in Hin. apply elem_of_cons in Hin as [?|?]; done.
Qed.

Lemma write_cells_app (g : gmap (Z * Z) value) cs1 cs2 :
  write_cells g (cs1 ++ cs2) = write_cells (write_cells g cs1) cs2.
Proof. unfold write_cells. apply foldl_app. Qed.

Lemma write_cells_prefix_then_all cs1 : ∀ (g : gmap (Z * Z) value) cs2,
  cs1 ⊆ cs2 →
  write_cells (write_cells g cs1) cs2 = write_cells g cs2.
Proof.
  induction cs1 as [|c cs1 IH]; intros g cs2 Hsub; [done|].
  unfold write_cells at 2. cbn [foldl]. fold (write_cells (write_cell g c) cs1).
  rewrite IH by (intros x Hx; apply Hsub; by right).
  apply write_cells_overwrite. apply list_elem_of_fmap.
  exists c. split; [done|]. apply Hsub. left.
Qed.

(** X6.  A [save] that failed after the service had applied part of the batch,
    followed by a [save] that goes through, leaves the remote grid, the
    tables and the dictionary exactly as one successful [save] would have:
    the cells sent twice are overwritten with the same values. *)
Theorem save_retry_same_result self k :
  rank self = 0 →
  aggregated_cell_buffers self ≠ [] →
  ∃ retried direct,
    save NetOk (save (NetFail k) self).1 = (retried, Ok tt) ∧
    save NetOk self = (direct, Ok tt) ∧
    grid (_ws retried) = grid (_ws direct) ∧
    tables retried = tables direct ∧
    _schema_to_table retried = _schema_to_table direct ∧
    aggregated_cell_buffers retried = [].
Proof.
  intros Hrank Hne. unfold save.
  rewrite (rank_zero_only_zero (save_wrapped (NetFail k))) by done.
  rewrite save_wrapped_failed by done. cbn [fst].
  rewrite !rank_zero_only_zero by done.
  rewrite (save_wrapped_sent self) by done.
  rewrite save_wrapped_sent by done. cbn [fst snd].
  eexists _, _. split; [reflexivity|]. split; [reflexivity|].
  cbn [_ws grid tables _schema_to_table].
  split; [|split; [done|split; [done|apply (aggregated_after_clear self)]]].
  apply write_cells_prefix_then_all, subseteq_take.
Qed.

Lemma save_retry_same_result_witness :
  ∃ retried direct,
    save NetOk (save (NetFail 1) sample_staged).1 = (retried, Ok tt) ∧
    save NetOk sample_staged = (direct, Ok tt) ∧
    grid (_ws retried) = grid (_ws direct).
Proof.
  destruct (save_retry_same_result sample_staged 1)
    as (retried & direct & Hr & Hd & Hgrid & _).
  - reflexivity.
  - vm_compute. discriminate.
  - exists retried, direct. split; [exact Hr|]. split; [exact Hd | exact Hgrid].
Defined.

(** ** What the buffers hold *)

Lemma item_of_not_tensor v : is_tensor (item_of v) = false.
Proof. by destruct v. Qed.

Lemma staged_cells_elem r names row : ∀ c0 c,
  c ∈ staged_cells r c0 names row →
  cell_row c = r ∧
  c0 ≤ cell_col c ≤ c0 + Z.of_nat (length names) - 1 ∧
  is_tensor (cell_value c) = false.
Proof.
  induction names as [|h names IH]; intros c0 c Hin; simpl in Hin.
  - by apply elem_of_nil in Hin.
  - destruct (dict_get h row) as [v|]; [|by apply elem_of_nil in Hin].
    apply elem_of_cons in Hin as [->|Hin].
    + simpl. split; [done|]. split; [lia | apply item_of_not_tensor].
    + destruct (IH _ _ Hin) as (Hr & Hc & Ht).
      split; [done|]. split; [|done]. simpl length. lia.
Qed.

Lemma header_cells_elem r c0 (names : list string) c :
  c ∈ imap (λ i h, mkCell r (c0 + Z.of_nat i) (VStr h)) names →
  cell_row c = r ∧
  c0 ≤ cell_col c ≤ c0 + Z.of_nat (length names) - 1 ∧
  is_tensor (cell_value c) = false.
Proof.
  intros Hin. apply elem_of_lookup_imap in Hin as (i & h & -> & Hi).
  apply lookup_lt_Some in Hi. simpl. split; [done|]. split; [lia | done].
Qed.

Lemma table_inv_updated hr row t : table_inv hr t → table_inv hr (updated row t).
Proof.
  intros (Hrow & Hoff & Hcells). unfold updated, table_inv, last_column.
  cbn [_last_step _col_offset cells_buffer _metrics_header].
  split; [lia|]. split; [done|]. intros c Hin.
  apply elem_of_app in Hin as [Hin|Hin].
  - destruct (Hcells c Hin) as (? & ? & ?). unfold last_column in *.
    split; [lia|]. by split.
  - destruct (staged_cells_elem _ _ _ _ _ Hin) as (-> & ? & ?).
    split; [lia|]. by split.
Qed.

Lemma table_inv_new ws hr metrics step row :
  table_inv hr (updated row (new_table ws hr metrics step)).
Proof.
  apply table_inv_updated. unfold new_table, table_inv, last_column.
  cbn [_last_step _col_offset cells_buffer _metrics_header].
  split; [lia|]. split; [apply offset_for_pos|]. intros c Hin.
  destruct (header_cells_elem _ _ _ _ Hin) as (-> & ? & ?).
  split; [lia|]. by split.
Qed.

Lemma table_inv_cleared hr t : table_inv hr t → table_inv hr (set_cells_buffer [] t).
Proof.
  intros (Hrow & Hoff & _). split; [done|]. split; [done|].
  intros c Hin. by apply elem_of_nil in Hin.
Qed.

Lemma header_names_set metrics step :
  dict_get "step" metrics = Some step →
  list_to_set (header_names metrics step) ∪ {["step"]} =@{gset string}
  schema_of metrics.
Proof.
  intros Hstep. apply dict_get_Some_keys in Hstep.
  unfold schema_of, header_names. apply set_eq. intros k.
  rewrite elem_of_union, !elem_of_list_to_set, elem_of_app, list_elem_of_filter,
    elem_of_singleton.
  destruct (decide (k = "step")) as [->|Hne]; [naive_solver|].
  split; [|naive_solver]. intros [[Hin|[_ Hin]]|?]; [|done..].
  destruct (is_None step); [by apply elem_of_nil in Hin|].
  by apply list_elem_of_singleton in Hin.
Qed.

Lemma length_clear_buffers self : length (clear_buffers self) = length (tables self).
Proof.
  unfold clear_buffers. generalize (tables self).
  induction ((_schema_to_table self).*2) as [|a addrs IH]; intros ts; [done|].
  simpl. by rewrite IH, length_alter.
Qed.

Lemma router_inv_empty ws header_row rank0 :
  router_inv (mkMetricsWorkSheet ws [] [] header_row rank0).
Proof.
  split; [apply router_wf_empty|]. split; [constructor|]. split.
  - intros fs a t Hin. by apply elem_of_nil in Hin.
  - simpl. intros a Ha. lia.
Qed.

Lemma router_inv_found self ws a t row :
  router_inv self → tables self !! a = Some t →
  router_inv (mkMetricsWorkSheet ws (<[a := updated row t]> (tables self))
                (_schema_to_table self) (_header_row self) (rank self)).
Proof.
  intros (Hwf & Hall & Hhdr & Hreg) Ht. split; [by eapply router_wf_found|].
  cbn [tables _schema_to_table _header_row]. split; [|split].
  - apply Forall_insert; [done|]. apply table_inv_updated.
    rewrite Forall_lookup in Hall. by eapply Hall.
  - intros fs b tb Hin Hb. destruct (decide (a = b)) as [->|Hne].
    + rewrite list_lookup_insert_eq in Hb by (by apply lookup_lt_Some in Ht).
      injection Hb as <-. by apply (Hhdr fs b t).
    + rewrite list_lookup_insert_ne in Hb by done. by eapply Hhdr.
  - intros b Hb. rewrite length_insert in Hb. by apply Hreg.
Qed.

Lemma router_inv_fresh self ws metrics step :
  router_inv self →
  dict_get "step" metrics = Some step →
  router_inv
    (mkMetricsWorkSheet ws
       (tables self ++ [updated metrics (new_table (_ws self) (_header_row self) metrics step)])
       (_schema_to_table self ++ [(schema_of metrics, length (tables self))])
       (_header_row self) (rank self)).
Proof.
  intros (Hwf & Hall & Hhdr & Hreg) Hstep. split.
  { apply router_wf_fresh; [done|]. simpl. intros h Hin.
    by apply (header_names_keys _ step). }
  cbn [tables _schema_to_table _header_row]. split; [|split].
  - apply Forall_app. split; [done|]. constructor; [|constructor].
    apply table_inv_new.
  - intros fs b tb Hin Hb. apply elem_of_app in Hin as [Hin|Hin].
    + assert (b < length (tables self))%nat as Hlt.
      { apply (router_wf_addresses _ _ Hwf), list_elem_of_fmap.
        by exists (fs, b). }
      rewrite lookup_app_l in Hb by done. by eapply Hhdr.
    + apply list_elem_of_singleton in Hin. injection Hin as -> ->.
      rewrite lookup_app_r, Nat.sub_diag in Hb by done. injection Hb as <-.
      simpl. by apply header_names_set.
  - intros b Hb. rewrite length_app in Hb. simpl in Hb. rewrite fmap_app.
    apply elem_of_app. destruct (decide (b = length (tables self))) as [->|Hne].
    + right. simpl. left.
    + left. apply Hreg. lia.
Qed.

Lemma router_inv_cleared self ws :
  router_inv self →
  router_inv (mkMetricsWorkSheet ws (clear_buffers self) (_schema_to_table self)
                (_header_row self) (rank self)).
Proof.
  intros (Hwf & Hall & Hhdr & Hreg). split; [by apply router_wf_cleared|].
  cbn [tables _schema_to_table _header_row]. split; [|split].
  - apply Forall_lookup. intros i t Hi. rewrite clear_buffers_lookup in Hi.
    destruct (tables self !! i) as [t0|] eqn:E; [|done]. simpl in Hi.
    injection Hi as <-. rewrite Forall_lookup in Hall. specialize (Hall _ _ E).
    destruct (bool_decide _); [by apply table_inv_cleared | done].
  - intros fs b tb Hin Hb. rewrite clear_buffers_lookup in Hb.
    destruct (tables self !! b) as [t0|] eqn:E; [|done]. simpl in Hb.
    injection Hb as <-. rewrite <- (Hhdr fs b t0) by done.
    by destruct (bool_decide _).
  - intros b Hb. rewrite length_clear_buffers in Hb. by apply Hreg.
Qed.

Lemma router_inv_ws self ws :
  router_inv self →
  router_inv (mkMetricsWorkSheet ws (tables self) (_schema_to_table self)
                (_header_row self) (rank self)).
Proof. intros (Hwf & Hall & Hhdr & Hreg). split; [by apply router_wf_ws | done]. Qed.

Lemma step_op_inv o self : router_inv self → router_inv (step_op o self).1.
Proof.
  intros Hinv. pose proof Hinv as (Hwf & _).
  destruct o as [metrics step|n]; simpl; unfold log_metrics, save;
    rewrite rank_zero_only_fst; destruct (rank self =? 0); try done.
  - destruct (schema_get (schema_of (full_metrics metrics step))
                (_schema_to_table self)) as [a|] eqn:Hget.
    + destruct (log_metrics_wrapped_found _ _ _ _ Hwf Hget) as (t & Ht & ->).
      by apply router_inv_found.
    + rewrite (log_metrics_wrapped_fresh _ _ _ Hget).
      apply router_inv_fresh; [done | apply full_metrics_step].
  - destruct (decide (aggregated_cell_buffers self = [])) as [He|Hne].
    + by rewrite save_wrapped_empty.
    + destruct n as [|k].
      * rewrite save_wrapped_sent by done. by apply router_inv_cleared.
      * rewrite save_wrapped_failed by done. by apply router_inv_ws.
Qed.

Lemma run_inv ops self : router_inv self → router_inv (run ops self).
Proof.
  intros Hinv. induction ops as [|o ops IH] using rev_ind; [done|].
  rewrite run_snoc. by apply step_op_inv.
Qed.

Lemma elem_of_aggregated self c :
  c ∈ aggregated_cell_buffers self ↔
  ∃ a t, a ∈ (_schema_to_table self).*2 ∧ tables self !! a = Some t ∧
         c ∈ cells_buffer t.
Proof.
  unfold aggregated_cell_buffers. rewrite list_elem_of_bind. split.
  - intros (a & Hc & Ha). destruct (tables self !! a) as [t|] eqn:E.
    + by exists a, t.
    + by apply elem_of_nil in Hc.
  - intros (a & t & Ha & Ht & Hc). exists a. by rewrite Ht.
Qed.

Lemma run_table_inv self ops a t :
  router_inv self →
  tables (run ops self) !! a = Some t →
  table_inv (_header_row self) t.
Proof.
  intros Hinv Ht. destruct (run_wf_later ops self (proj1 Hinv)) as [_ Hl].
  destruct (run_inv ops self Hinv) as (_ & Hall & _).
  rewrite Forall_lookup in Hall. rewrite <- (later_header_row _ _ Hl).
  by eapply Hall.
Qed.

(** X7.  Whatever calls were made, each pending cell of a table lies inside the
    table's own column block, on a row between the header row and the row
    cursor, and holds no tensor. *)
Theorem pending_cells_well_placed self ops a t c :
  router_inv self →
  tables (run ops self) !! a = Some t →
  c ∈ cells_buffer t →
  _header_row self ≤ cell_row c < _last_step t ∧
  _col_offset t ≤ cell_col c ≤ last_column t ∧
  is_tensor (cell_value c) = false.
Proof.
  intros Hinv Ht Hc.
  destruct (run_table_inv self ops a t Hinv Ht) as (_ & _ & Hcells).
  by apply Hcells.
Qed.

Lemma pending_cells_well_placed_witness :
  ∃ t, tables sample_staged !! 0%nat = Some t ∧
       Forall (λ c, 3 ≤ cell_row c < _last_step t ∧
                    _col_offset t ≤ cell_col c ≤ last_column t ∧
                    is_tensor (cell_value c) = false) (cells_buffer t).
Proof.
  eexists. split; [reflexivity|]. apply Forall_forall. intros c Hc.
  apply (pending_cells_well_placed sample_router
           [LogMetrics [("loss", VNum 5)] (VNum 1)] 0%nat _ c);
    [apply router_inv_empty | reflexivity | exact Hc].
Defined.

(** X8.  The batch a [save] sends never contains a tensor and never addresses a
    cell above the header row or left of column 1. *)
Theorem save_sends_plain_cells self ops n cs c :
  router_inv self →
  CallUpdateCells cs ∈ new_calls (run ops self) (save n (run ops self)).1 →
  c ∈ cs →
  is_tensor (cell_value c) = false ∧
  _header_row self ≤ cell_row c ∧
  1 ≤ cell_col c.
Proof.
  intros Hinv Hcall Hc. set (s := run ops self) in *.
  assert (c ∈ aggregated_cell_buffers s) as Hagg.
  { unfold save in Hcall. rewrite rank_zero_only_fst in Hcall.
    destruct (rank s =? 0);
      [|rewrite new_calls_same in Hcall; by apply elem_of_nil in Hcall].
    destruct (decide (aggregated_cell_buffers s = [])) as [He|Hne].
    { rewrite save_wrapped_empty, new_calls_same in Hcall by done.
      by apply elem_of_nil in Hcall. }
    assert (new_calls s (save_wrapped n s).1 =
            [CallUpdateCells (aggregated_cell_buffers s)]) as Hnew.
    { destruct n as [|k];
        [rewrite save_wrapped_sent by done | rewrite save_wrapped_failed by done];
        by apply new_calls_app. }
    rewrite Hnew in Hcall. apply list_elem_of_singleton in Hcall.
    by injection Hcall as ->. }
  apply elem_of_aggregated in Hagg as (a & t & _ & Ht & Hin).
  destruct (run_table_inv self ops a t Hinv Ht) as (_ & Hoff & Hcells).
  destruct (Hcells c Hin) as ((? & _) & (? & _) & ?).
  split; [done|]. split; [done | lia].
Qed.

Lemma save_sends_plain_cells_witness :
  Forall (λ c, is_tensor (cell_value c) = false ∧ 3 ≤ cell_row c ∧ 1 ≤ cell_col c)
    (aggregated_cell_buffers sample_staged).
Proof.
  apply Forall_forall. intros c Hc.
  apply (save_sends_plain_cells sample_router
           [LogMetrics [("loss", VNum 5)] (VNum 1)] NetOk
           (aggregated_cell_buffers sample_staged) c);
    [apply router_inv_empty | | exact Hc].
  assert (new_calls (run [LogMetrics [("loss", VNum 5)] (VNum 1)] sample_router)
            (save NetOk (run [LogMetrics [("loss", VNum 5)] (VNum 1)] sample_router)).1
          = [CallUpdateCells (aggregated_cell_buffers sample_staged)]) as ->
    by (vm_compute; reflexivity).
  left.
Defined.

(** *** Rows that were flushed are not written again *)

Lemma buffer_step o s a t0 t1 :
  router_wf s →
  tables s !! a = Some t0 →
  tables (step_op o s).1 !! a = Some t1 →
  ∀ c, c ∈ cells_buffer t1 → c ∈ cells_buffer t0 ∨ _last_step t0 ≤ cell_row c.
Proof.
  intros Hwf H0 H1 c Hc. revert H1.
  destruct o as [metrics step|n]; simpl; unfold log_metrics, save;
    rewrite rank_zero_only_fst; destruct (rank s =? 0);
    try (intros H1; left; congruence).
  - destruct (schema_get (schema_of (full_metrics metrics step))
                (_schema_to_table s)) as [b|] eqn:Hget.
    + destruct (log_metrics_wrapped_found _ _ _ _ Hwf Hget) as (t & Ht & ->).
      cbn [fst tables]. destruct (decide (b = a)) as [->|Hne].
      * rewrite list_lookup_insert_eq by (by apply lookup_lt_Some in Ht).
        intros [= <-]. assert (t = t0) as -> by congruence. simpl in Hc.
        apply elem_of_app in Hc as [Hc|Hc]; [by left|].
        right. apply staged_cells_row in Hc. lia.
      * rewrite list_lookup_insert_ne by done. intros H1. left. congruence.
    + rewrite (log_metrics_wrapped_fresh _ _ _ Hget). cbn [fst tables].
      rewrite lookup_app_l by (by apply lookup_lt_Some in H0).
      intros H1. left. congruence.
  - destruct (decide (aggregated_cell_buffers s = [])) as [He|Hne].
    + rewrite save_wrapped_empty by done. cbn [fst]. intros H1. left. congruence.
    + destruct n as [|k].
      * rewrite save_wrapped_sent by done. cbn [fst tables].
        rewrite clear_buffers_lookup, H0. simpl. intros [= <-]. left.
        revert Hc. destruct (bool_decide _); intros Hc;
          [by apply elem_of_nil in Hc | done].
      * rewrite save_wrapped_failed by done. intros H1. left. simpl in H1.
        congruence.
Qed.

Lemma buffer_run ops : ∀ s a t0 t1,
  router_wf s →
  tables s !! a = Some t0 →
  tables (run ops s) !! a = Some t1 →
  ∀ c, c ∈ cells_buffer t1 → c ∈ cells_buffer t0 ∨ _last_step t0 ≤ cell_row c.
Proof.
  induction ops as [|o ops IH] using rev_ind; intros s a t0 t1 Hwf H0 H1 c Hc.
  - left. simpl in H1. congruence.
  - rewrite run_snoc in H1.
    destruct (run_wf_later ops s Hwf) as [Hwf' (_ & _ & _ & Hkeep)].
    destruct (Hkeep _ _ H0) as (tm & Hm & _ & _ & Hle).
    destruct (buffer_step o _ a tm t1 Hwf' Hm H1 c Hc) as [Hc'|Hrow]; [|right; lia].
    exact (IH s a t0 tm Hwf H0 Hm c Hc').
Qed.

(** X9.  After a [save] that went through, whatever calls follow, every cell a
    table stages lies on a row below all the rows that [save] sent for the
    same table: flushed rows are never written again. *)
Theorem flushed_rows_not_rewritten self ops a t t' c1 c2 :
  rank self = 0 →
  router_inv self →
  tables self !! a = Some t →
  tables (run ops (save NetOk self).1) !! a = Some t' →
  c1 ∈ cells_buffer t →
  c2 ∈ cells_buffer t' →
  cell_row c1 < cell_row c2.
Proof.
  intros Hrank (Hwf & Hall & _ & Hreg) Ht Ht' Hc1 Hc2.
  assert (a ∈ (_schema_to_table self).*2) as Ha
    by (apply Hreg; by apply lookup_lt_Some in Ht).
  assert (aggregated_cell_buffers self ≠ []) as Hne.
  { intros He. assert (c1 ∈ aggregated_cell_buffers self) as Hin
      by (apply elem_of_aggregated; by exists a, t).
    rewrite He in Hin. by apply elem_of_nil in Hin. }
  rewrite Forall_lookup in Hall. destruct (Hall _ _ Ht) as (_ & _ & Hcells).
  destruct (Hcells c1 Hc1) as ((_ & Hlt) & _).
  revert Ht'. unfold save. rewrite rank_zero_only_fst, Hrank. cbn [Z.eqb].
  rewrite save_wrapped_sent by done. cbn [fst]. intros Ht'.
  match type of Ht' with
  | tables (run ops ?s) !! _ = _ =>
      assert (tables s !! a = Some (set_cells_buffer [] t)) as Hlk;
      [cbn [tables]; rewrite clear_buffers_lookup, Ht; simpl;
       by rewrite bool_decide_eq_true_2|];
      destruct (buffer_run ops s a _ t' (router_wf_cleared self _ Hwf)
                  Hlk Ht' c2 Hc2) as [Hin|Hrow]
  end.
  - by apply elem_of_nil in Hin.
  - simpl in Hrow. lia.
Qed.

Lemma flushed_rows_not_rewritten_witness :
  ∃ t t',
    tables sample_staged !! 0%nat = Some t ∧
    tables (run [LogMetrics [("loss", VNum 6)] (VNum 1)]
              (save NetOk sample_staged).1) !! 0%nat = Some t' ∧
    Forall (λ c1, Forall (λ c2, cell_row c1 < cell_row c2) (cells_buffer t'))
      (cells_buffer t).
Proof.
  eexists _, _. split; [reflexivity|]. split; [vm_compute; reflexivity|].
  apply Forall_forall. intros c1 Hc1. apply Forall_forall. intros c2 Hc2.
  eapply (flushed_rows_not_rewritten sample_staged
            [LogMetrics [("loss", VNum 6)] (VNum 1)] 0%nat).
  5: exact Hc1.
  5: exact Hc2.
  - reflexivity.
  - apply (run_inv [LogMetrics [("loss", VNum 5)] (VNum 1)] sample_router).
    apply router_inv_empty.
  - reflexivity.
  - vm_compute; reflexivity.
Defined.

(** *** Key-sets and tables, metrics and columns *)

Lemma run_app ops1 ops2 self : run (ops1 ++ ops2) self = run ops2 (run ops1 self).
Proof. unfold run. by rewrite foldl_app. Qed.

Lemma schema_get_step_op fs o self :
  rank self = 0 → router_wf self →
  schema_get fs (_schema_to_table (step_op o self).1) =
  match schema_get fs (_schema_to_table self) with
  | Some a => Some a
  | None =>
      if bool_decide (op_schema o = Some fs) then Some (length (tables self))
      else None
  end.
Proof.
  intros Hrank Hwf. destruct o as [metrics step|n]; simpl;
    unfold log_metrics, save; rewrite rank_zero_only_fst, Hrank; cbn [Z.eqb].
  - destruct (schema_get (schema_of (full_metrics metrics step))
                (_schema_to_table self)) as [a|] eqn:Hget.
    + destruct (log_metrics_wrapped_found _ _ _ _ Hwf Hget) as (t & _ & ->).
      cbn [fst _schema_to_table].
      destruct (schema_get fs (_schema_to_table self)) as [b|] eqn:Hb; [done|].
      rewrite bool_decide_eq_false_2; [done|]. intros [= Heq]. congruence.
    + rewrite (log_metrics_wrapped_fresh _ _ _ Hget).
      cbn [fst _schema_to_table]. rewrite schema_get_snoc.
      destruct (schema_get fs (_schema_to_table self)) as [b|]; [done|].
      destruct (decide (fs = schema_of (full_metrics metrics step))) as [->|Hne].
      * by rewrite bool_decide_eq_true_2.
      * rewrite bool_decide_eq_false_2; [done|]. intros [= Heq]. done.
  - assert (_schema_to_table (save_wrapped n self).1 = _schema_to_table self)
      as ->.
    { destruct (decide (aggregated_cell_buffers self = [])) as [He|Hne].
      - by rewrite save_wrapped_empty.
      - destruct n; [by rewrite save_wrapped_sent | by rewrite save_wrapped_failed]. }
    by destruct (schema_get fs (_schema_to_table self)).
Qed.

(** A key-set has an entry in the dictionary exactly when it had one at the
    start or a call since then came under it. *)
Lemma registered_iff_seen fs ops self :
  rank self = 0 → router_wf self →
  is_Some (schema_get fs (_schema_to_table (run ops self))) ↔
  is_Some (schema_get fs (_schema_to_table self)) ∨
  ∃ o, o ∈ ops ∧ op_schema o = Some fs.
Proof.
  intros Hrank Hwf. induction ops as [|o ops IH] using rev_ind.
  - simpl. split; [by left|]. intros [H|(o & Hin & _)]; [done|].
    by apply elem_of_nil in Hin.
  - destruct (run_wf_later ops self Hwf) as [Hwf1 Hl1].
    pose proof (later_rank _ _ Hl1) as Hrank1. rewrite Hrank in Hrank1.
    rewrite run_snoc, (schema_get_step_op fs o _ Hrank1 Hwf1).
    destruct (schema_get fs (_schema_to_table (run ops self))) as [a|] eqn:Ha.
    + split; [intros _|by eexists].
      destruct (proj1 IH) as [H|(o' & Hin & Ho')]; [by eexists | by left |].
      right. exists o'. split; [|done]. apply elem_of_app. by left.
    + case_bool_decide as Ho.
      * split; [intros _|by eexists]. right. exists o.
        split; [|done]. apply elem_of_app. right. left.
      * split; [by intros [? ?]|]. intros [H|(o' & Hin & Ho')].
        -- destruct (proj2 IH) as [? ?]; [by left | done].
        -- apply elem_of_app in Hin as [Hin|Hin].
           ++ destruct (proj2 IH) as [? ?]; [right; by exists o' | done].
           ++ apply list_elem_of_singleton in Hin as ->. done.
Qed.

(** X22.  Routing, from the router [__init__] builds (rank zero, no table, a
    header row of the sheet) and through calls that name a column.  A call
    and any later call with an equal key-set (metrics plus the [step] key),
    whatever calls and saves come between them, are routed to the same table
    object.  When no earlier call came under the key-set, the call
    constructs one new table object, at a fresh address, leaving the
    existing ones as they are: its header is made of the names of the call,
    its column offset is read off the remote header row, and its row cursor
    is two below the header row once the call has written its row.  When an
    earlier call did, the call is routed to a table that exists and
    constructs none.  An entry of the dictionary, once made, stays and keeps
    referring to its live table; every request sent is one the client
    library accepts. *)
Theorem routing_by_key_set self0 ops0 metrics1 step1 ops metrics2 step2 :
  rank self0 = 0 →
  tables self0 = [] →
  _schema_to_table self0 = [] →
  1 ≤ _header_row self0 →
  Forall (λ o, op_names_a_column o = true)
    (ops0 ++ LogMetrics metrics1 step1 :: ops) →
  schema_of (full_metrics metrics2 step2) = schema_of (full_metrics metrics1 step1) →
  let fs := schema_of (full_metrics metrics1 step1) in
  let self := run ops0 self0 in
  let self1 := (log_metrics metrics1 step1 self).1 in
  let self2 := run ops self1 in
  ∃ a,
    routed metrics1 step1 self = Ok a ∧
    routed metrics2 step2 self2 = Ok a ∧
    ((∀ o, o ∈ ops0 → op_schema o ≠ Some fs) →
       a = length (tables self) ∧
       ∃ t, tables self1 = tables self ++ [t] ∧
            _metrics_header t = header_names metrics1 step1 ∧
            _col_offset t =
              offset_for (ws_row_values (_header_row self0) (_ws self)).2 ∧
            _last_step t = _header_row self0 + 2) ∧
    ((∃ o, o ∈ ops0 ∧ op_schema o = Some fs) →
       (a < length (tables self))%nat ∧
       length (tables self1) = length (tables self)) ∧
    schema_get fs (_schema_to_table self2) = Some a ∧
    is_Some (tables self2 !! a) ∧
    (∀ fs' b, schema_get fs' (_schema_to_table self) = Some b →
              schema_get fs' (_schema_to_table self2) = Some b ∧
              is_Some (tables self2 !! b)) ∧
    Forall (λ c, accepted c = true) (new_calls self0 self2).
Proof.
  intros Hrank0 Htabs Hdict Hhr Hops Hfs. cbv zeta.
  assert (router_ok self0) as Hok0.
  { destruct self0 as [ws ts d hr rk]. simpl in *. subst ts d.
    by apply router_ok_empty. }
  pose proof Hok0 as (Hwf0 & _).
  destruct (run_wf_later ops0 self0 Hwf0) as [Hwf Hl0].
  pose proof (later_rank _ _ Hl0) as Hrank. rewrite Hrank0 in Hrank.
  pose proof (later_header_row _ _ Hl0) as Hhr0.
  set (self := run ops0 self0) in *.
  destruct (routed_stable self metrics1 step1 ops metrics2 step2 Hwf Hfs)
    as (a & Hr1 & Hr2 & Hreg).
  rewrite run_cons in Hr2, Hreg. simpl in Hr2, Hreg. rewrite Hrank in Hreg.
  cbn [Z.eqb] in Hreg.
  destruct (step_op_wf_later (LogMetrics metrics1 step1) self Hwf) as [Hwf1 Hl1].
  simpl in Hwf1, Hl1.
  destruct (run_wf_later ops _ Hwf1) as [Hwf2 Hl2].
  pose proof (registered_iff_seen (schema_of (full_metrics metrics1 step1))
                ops0 self0 Hrank0 Hwf0) as Hseen.
  fold self in Hseen. rewrite Hdict in Hseen. cbn [schema_get] in Hseen.
  exists a. split; [done|]. split; [done|].
  split; [|split; [|split; [|split; [|split]]]].
  - intros Hnew.
    assert (schema_get (schema_of (full_metrics metrics1 step1))
              (_schema_to_table self) = None) as Hnone.
    { destruct (schema_get _ (_schema_to_table self)) as [b|] eqn:Hb; [|done].
      destruct (proj1 Hseen) as [[? ?]|(o & Hin & Ho)]; [by eexists | done |].
      by destruct (Hnew o Hin). }
    rewrite routed_eq, Hnone in Hr1. injection Hr1 as <-.
    split; [done|]. rewrite log_metrics_tables_fresh by done.
    eexists. split; [reflexivity|].
    cbn [updated new_table _metrics_header _col_offset _last_step].
    rewrite header_names_full_metrics, Hhr0. split; [done|]. split; [done|]. lia.
  - intros Hold.
    assert (is_Some (schema_get (schema_of (full_metrics metrics1 step1))
                       (_schema_to_table self))) as Hsome
      by (apply Hseen; by right).
    split; [|by apply log_metrics_tables_found].
    destruct Hsome as [b Hb]. rewrite routed_eq, Hb in Hr1.
    injection Hr1 as <-. apply (router_wf_addresses _ _ Hwf).
    apply list_elem_of_fmap. exists (schema_of (full_metrics metrics1 step1), b).
    split; [done | by apply schema_get_elem].
  - done.
  - by eapply router_wf_live.
  - intros fs' b Hb.
    destruct (later_trans _ _ _ Hl1 Hl2) as (_ & _ & Hkeep & _).
    apply Hkeep in Hb. split; [done | by eapply router_wf_live].
  - assert (run ops (log_metrics metrics1 step1 self).1 =
            run (ops0 ++ LogMetrics metrics1 step1 :: ops) self0) as ->
      by (by rewrite run_app, run_cons).
    by apply run_accepted.
Qed.

Lemma routing_by_key_set_witness :
  routed [("loss", VNum 9)] VNone
    (run [LogMetrics [("acc", VNum 1)] (VNum 1)] sample_router) = Ok 1%nat ∧
  routed [("loss", VNum 5)] (VNum 1)
    (run [LogMetrics [("acc", VNum 1)] (VNum 1);
          LogMetrics [("loss", VNum 9)] VNone;
          Save NetOk] sample_router) = Ok 1%nat.
Proof.
  destruct (routing_by_key_set sample_router
              [LogMetrics [("acc", VNum 1)] (VNum 1)]
              [("loss", VNum 9)] VNone [Save NetOk] [("loss", VNum 5)] (VNum 1))
    as (a & Hr1 & Hr2 & Hnew & _).
  - reflexivity.
  - reflexivity.
  - reflexivity.
  - simpl. lia.
  - by repeat constructor.
  - reflexivity.
  - destruct Hnew as [-> _].
    + intros o Hin. apply list_elem_of_singleton in Hin as ->. by vm_compute.
    + split; [exact Hr1 | exact Hr2].
Defined.


(** X10.  Two calls are routed to the same table exactly when their key-sets are
    equal: different key-sets never share a table. *)
Theorem same_table_iff_same_key_set self metrics1 step1 metrics2 step2 a1 a2 :
  rank self = 0 →
  router_wf self →
  routed metrics1 step1 self = Ok a1 →
  routed metrics2 step2 (log_metrics metrics1 step1 self).1 = Ok a2 →
  a1 = a2 ↔
  schema_of (full_metrics metrics1 step1) = schema_of (full_metrics metrics2 step2).
Proof.
  intros Hrank Hwf Hr1 Hr2.
  pose proof (log_metrics_registers metrics1 step1 self Hrank Hwf) as Hreg.
  rewrite routed_eq in Hr1. injection Hr1 as Hr1. rewrite Hr1 in Hreg.
  destruct (step_op_wf_later (LogMetrics metrics1 step1) self Hwf) as [Hwf1 _].
  simpl in Hwf1. rewrite routed_eq in Hr2. injection Hr2 as Hr2. split.
  - intros <-.
    destruct (schema_get (schema_of (full_metrics metrics2 step2))
                (_schema_to_table (log_metrics metrics1 step1 self).1))
      as [b|] eqn:Hget; simpl in Hr2.
    + subst b. destruct Hwf1 as [_ Hnd].
      eapply (addresses_injective _ _ _ a1 Hnd); by apply schema_get_elem.
    + assert (a1 < length (tables (log_metrics metrics1 step1 self).1))%nat.
      { apply (router_wf_addresses _ _ Hwf1), list_elem_of_fmap.
        exists (schema_of (full_metrics metrics1 step1), a1).
        split; [done | by apply schema_get_elem]. }
      lia.
  - intros Hfs. rewrite <- Hfs, Hreg in Hr2. by simpl in Hr2.
Qed.

Lemma same_table_iff_same_key_set_witness :
  (0%nat = 1%nat ↔
   schema_of (full_metrics [("loss", VNum 5)] (VNum 1)) =
   schema_of (full_metrics [("acc", VNum 5)] (VNum 1))) ∧
  routed [("acc", VNum 5)] (VNum 1) sample_staged = Ok 1%nat.
Proof.
  split; [|reflexivity].
  apply (same_table_iff_same_key_set sample_router [("loss", VNum 5)] (VNum 1)
           [("acc", VNum 5)] (VNum 1) 0%nat 1%nat);
    [reflexivity | apply router_wf_empty | reflexivity | reflexivity].
Defined.




(** *** From a call to the remote grid *)


Lemma write_cells_lookup_unique cs : ∀ (g : gmap (Z * Z) value) c,
  c ∈ cs →
  (∀ d, d ∈ cs → (cell_row d, cell_col d) = (cell_row c, cell_col c) → d = c) →
  write_cells g cs !! (cell_row c, cell_col c) = Some (cell_value c).
Proof.
  induction cs as [|d cs IH] using rev_ind; intros g c Hin Huniq.
  - by apply elem_of_nil in Hin.
  - rewrite write_cells_app. unfold write_cells at 1. cbn [foldl].
    unfold write_cell at 1.
    destruct (decide ((cell_row d, cell_col d) = (cell_row c, cell_col c)))
      as [Heq|Hne].
    + rewrite (Huniq d) by (done || apply elem_of_app; right; left).
      apply lookup_insert_eq.
    + rewrite lookup_insert_ne by done. apply IH.
      * apply elem_of_app in Hin as [Hin|Hin]; [done|].
        apply list_elem_of_singleton in Hin. by subst.
      * intros d' Hd'. apply Huniq. apply elem_of_app. by left.
Qed.




(** ** The drive: folders and versions *)

Lemma live_folder_found name parent drive f :
  f ∈ filter (λ f, is_dir f = true) (ListFile parent (Some name) drive) ↔
  f ∈ drive ∧ live_folder name parent f.
Proof.
  unfold ListFile, live_folder. rewrite !list_elem_of_filter.
  rewrite !andb_true_iff, negb_true_iff, !bool_decide_eq_true. naive_solver.
Qed.

Lemma find_or_create_folder_found name parent drive f rest :
  filter (λ f, is_dir f = true) (ListFile parent (Some name) drive) = f :: rest →
  _find_or_create_folder name parent drive = (drive, id f).
Proof. intros H. unfold _find_or_create_folder. by rewrite H. Qed.

Lemma find_or_create_folder_created name parent drive :
  filter (λ f, is_dir f = true) (ListFile parent (Some name) drive) = [] →
  _find_or_create_folder name parent drive =
  (drive ++ [mkDriveFile (FileId (length drive)) name folder_mimeType [parent] false],
   FileId (length drive)).
Proof.
  intros H. unfold _find_or_create_folder. rewrite H.
  by destruct (decide (parent = RootId)) as [->|?].
Qed.

Lemma created_folder_is_live name parent n :
  live_folder name parent (mkDriveFile (FileId n) name folder_mimeType [parent] false).
Proof.
  split; [by apply bool_decide_eq_true_2|]. repeat split. simpl. left.
Qed.

(** The result of [_find_or_create_folder], in all cases. *)
Lemma find_or_create_folder_cases name parent drive :
  (∃ f, f ∈ drive ∧ live_folder name parent f ∧
        _find_or_create_folder name parent drive = (drive, id f)) ∨
  ((∀ f, f ∈ drive → ¬ live_folder name parent f) ∧
   _find_or_create_folder name parent drive =
   (drive ++ [mkDriveFile (FileId (length drive)) name folder_mimeType [parent] false],
    FileId (length drive))).
Proof.
  destruct (filter (λ f, is_dir f = true) (ListFile parent (Some name) drive))
    as [|f rest] eqn:E.
  - right. split; [|by apply find_or_create_folder_created].
    intros f Hin Hlive.
    assert (f ∈ filter (λ f, is_dir f = true) (ListFile parent (Some name) drive))
      as H by by apply live_folder_found.
    rewrite E in H. by apply elem_of_nil in H.
  - left. exists f.
    assert (f ∈ filter (λ f, is_dir f = true) (ListFile parent (Some name) drive))
      as H by (rewrite E; left).
    apply live_folder_found in H as [? ?].
    split; [done|]. split; [done|]. by eapply find_or_create_folder_found.
Qed.

(** X13.  [_find_or_create_folder] returns the identifier of a live folder with
    the given title directly under the given parent.  When the drive has such
    a folder, nothing is created; otherwise exactly one folder is added, at
    the end, and no existing file is changed.  Trashed folders and files that
    are not folders do not count. *)
Theorem find_or_create_folder_spec name parent drive :
  ∃ drive' fid f,
    _find_or_create_folder name parent drive = (drive', fid) ∧
    f ∈ drive' ∧ id f = fid ∧ live_folder name parent f ∧
    ((∃ f0, f0 ∈ drive ∧ live_folder name parent f0) → drive' = drive) ∧
    ((∀ f0, f0 ∈ drive → ¬ live_folder name parent f0) →
       drive' = drive ++ [f] ∧ fid = FileId (length drive) ∧
       parents f = [parent]).
Proof.
  destruct (find_or_create_folder_cases name parent drive)
    as [(f & Hin & Hlive & ->)|(Hnone & ->)].
  - exists drive, (id f), f. do 5 (split; [done|]).
    intros Hn. by destruct (Hn f Hin).
  - eexists _, _, _. split; [reflexivity|].
    split; [apply elem_of_app; right; left|]. split; [done|].
    split; [apply created_folder_is_live|]. split; [|done].
    intros (f0 & Hin & Hlive). by destruct (Hnone f0 Hin).
Qed.

Lemma find_or_create_folder_spec_witness :
  ∃ drive' fid,
    _find_or_create_folder "lightning_logs" RootId sample_drive = (drive', fid) ∧
    drive' = sample_drive.
Proof.
  destruct (find_or_create_folder_spec "lightning_logs" RootId sample_drive)
    as (drive' & fid & f & Heq & _ & _ & _ & Hfound & _).
  exists drive', fid. split; [exact Heq|]. apply Hfound.
  exists (mkDriveFile (FileId 0) "lightning_logs" folder_mimeType [RootId] false).
  split; [left|]. split; [by vm_compute|]. repeat split. left.
Defined.

(** X14.  [_find_or_create_folder] is idempotent: asked again on the drive it
    left, it returns the same identifier and changes nothing. *)
Theorem find_or_create_folder_idempotent name parent drive :
  _find_or_create_folder name parent
    (_find_or_create_folder name parent drive).1 =
  _find_or_create_folder name parent drive.
Proof.
  destruct (filter (λ f, is_dir f = true) (ListFile parent (Some name) drive))
    as [|f rest] eqn:E.
  - rewrite (find_or_create_folder_created _ _ _ E). cbn [fst].
    rewrite (find_or_create_folder_found _ _ _
               (mkDriveFile (FileId (length drive)) name folder_mimeType
                  [parent] false) []); [reflexivity|].
    unfold ListFile in *. rewrite !filter_app, E. cbn [app].
    rewrite !filter_cons_True; [reflexivity | done |].
    simpl. rewrite !bool_decide_eq_true_2; [done | done | left].
  - rewrite (find_or_create_folder_found _ _ _ _ _ E). cbn [fst].
    by apply (find_or_create_folder_found _ _ _ f rest).
Qed.

(** *** [_get_next_version] *)

Lemma prefix_app s1 : ∀ s2, String.prefix s1 s2 = true → ∃ rest, s2 = s1 +:+ rest.
Proof.
  induction s1 as [|a s1 IH]; intros s2 H.
  - by exists s2.
  - destruct s2 as [|b s2]; [done|]. simpl in H.
    destruct (ascii_dec a b) as [->|]; [|done].
    destruct (IH _ H) as [rest ->]. by exists rest.
Qed.

Lemma split_on_nonempty sep s : ∃ p ps, split_on sep s = p :: ps.
Proof.
  induction s as [|a s IH]; simpl; [by eexists _, _|].
  destruct (decide (a = sep)); [by eexists _, _|].
  destruct IH as (p & ps & ->). by eexists _, _.
Qed.

Lemma split_on_version rest :
  split_on "_" ("version_" +:+ rest) = "version" :: split_on "_" rest.
Proof. reflexivity. Qed.

Lemma version_piece t :
  String.prefix "version_" t = true →
  ∃ piece, split_on "_" t !! 1%nat = Some piece.
Proof.
  intros H. apply prefix_app in H as [rest ->]. rewrite split_on_version.
  destruct (split_on_nonempty "_" rest) as (p & ps & ->). by exists p.
Qed.

Lemma ListFile_all root drive f :
  f ∈ ListFile root None drive ↔
  f ∈ drive ∧ root ∈ parents f ∧ trashed f = false.
Proof.
  unfold ListFile. rewrite list_elem_of_filter.
  rewrite !andb_true_iff, negb_true_iff, bool_decide_eq_true. naive_solver.
Qed.

Lemma existing_versions_loop_ok l : ∀ acc r,
  existing_versions_loop l acc = Ok r →
  ∃ nums,
    r = acc ++ nums ∧
    (∀ f piece, f ∈ l → is_dir f && String.prefix "version_" (title f) = true →
       split_on "_" (title f) !! 1%nat = Some piece →
       ∃ n, int_of_string piece = Some n ∧ n ∈ nums) ∧
    (∀ n, n ∈ nums →
       ∃ f piece, f ∈ l ∧
         is_dir f && String.prefix "version_" (title f) = true ∧
         split_on "_" (title f) !! 1%nat = Some piece ∧
         int_of_string piece = Some n).
Proof.
  induction l as [|d l IH]; intros acc r H; simpl in H.
  - injection H as <-. exists []. rewrite app_nil_r. split; [done|]. split.
    + intros f piece Hin. by apply elem_of_nil in Hin.
    + intros n Hin. by apply elem_of_nil in Hin.
  - destruct (is_dir d && String.prefix "version_" (title d)) eqn:Hd.
    + destruct (split_on "_" (title d) !! 1%nat) as [piece|] eqn:Hp; [|done].
      destruct (int_of_string piece) as [n|] eqn:Hn; [|done].
      destruct (IH _ _ H) as (nums & -> & Hall & Hex).
      exists (n :: nums). rewrite <- app_assoc. split; [done|]. split.
      * intros f piece' Hin Hf Hp'. apply elem_of_cons in Hin as [->|Hin].
        -- exists n. split; [congruence | left].
        -- destruct (Hall f piece' Hin Hf Hp') as (n' & ? & ?).
           exists n'. split; [done | by right].
      * intros n' Hin. apply elem_of_cons in Hin as [->|Hin].
        -- exists d, piece. split; [left | done].
        -- destruct (Hex n' Hin) as (f & piece' & ? & ?).
           exists f, piece'. split; [by right | done].
    + destruct (IH _ _ H) as (nums & -> & Hall & Hex). exists nums.
      split; [done|]. split.
      * intros f piece Hin Hf Hp. apply elem_of_cons in Hin as [->|Hin];
          [congruence | eauto].
      * intros n Hin. destruct (Hex n Hin) as (f & piece & ? & ?).
        exists f, piece. split; [by right | done].
Qed.

Lemma existing_versions_loop_raises l : ∀ acc e,
  existing_versions_loop l acc = Raise e →
  e = ValueError ∧
  ∃ f piece, f ∈ l ∧
    is_dir f && String.prefix "version_" (title f) = true ∧
    split_on "_" (title f) !! 1%nat = Some piece ∧
    int_of_string piece = None.
Proof.
  induction l as [|d l IH]; intros acc e H; simpl in H; [done|].
  destruct (is_dir d && String.prefix "version_" (title d)) eqn:Hd.
  - apply andb_true_iff in Hd as Hd'. destruct Hd' as [_ Hpre].
    destruct (version_piece _ Hpre) as [piece Hp]. rewrite Hp in H.
    destruct (int_of_string piece) as [n|] eqn:Hn.
    + destruct (IH _ _ H) as (-> & f & piece' & ? & ?).
      split; [done|]. exists f, piece'. split; [by right | done].
    + injection H as <-. split; [done|]. exists d, piece. split; [left | done].
  - destruct (IH _ _ H) as (-> & f & piece' & ? & ?).
    split; [done|]. exists f, piece'. split; [by right | done].
Qed.

Lemma foldl_max_ge l : ∀ y x, x ∈ y :: l → x ≤ foldl Z.max y l.
Proof.
  induction l as [|z l IH]; intros y x Hin; simpl.
  - apply list_elem_of_singleton in Hin. lia.
  - assert (Z.max y z ≤ foldl Z.max (Z.max y z) l) as Hm by (apply IH; left).
    apply elem_of_cons in Hin as [->|Hin]; [lia|].
    apply elem_of_cons in Hin as [->|Hin]; [lia|].
    apply IH. by right.
Qed.

Lemma py_max_ge l x : x ∈ l → x ≤ py_max l.
Proof.
  destruct l as [|y l]; [intros H; by apply elem_of_nil in H|].
  apply foldl_max_ge.
Qed.

Lemma py_max_elem l : l ≠ [] → py_max l ∈ l.
Proof.
  destruct l as [|y l]; [done|]. intros _. simpl.
  revert y. induction l as [|z l IH]; intros y; simpl; [left|].
  destruct (Z.max_spec y z) as [[_ ->]|[_ ->]].
  - right. apply IH.
  - specialize (IH y). apply elem_of_cons in IH as [->|IH]; [left|].
    right. by right.
Qed.

Lemma get_next_version_ok self root v :
  root_folder_id self = Some root →
  _get_next_version self = Ok v →
  (∀ f piece, f ∈ drive self → version_folder root f →
     split_on "_" (title f) !! 1%nat = Some piece →
     ∃ n, int_of_string piece = Some n ∧ n < v) ∧
  (v = 0 ∨
   ∃ f piece, f ∈ drive self ∧ version_folder root f ∧
     split_on "_" (title f) !! 1%nat = Some piece ∧
     int_of_string piece = Some (v - 1)).
Proof.
  intros Hroot. unfold _get_next_version. rewrite Hroot.
  destruct (existing_versions_loop (ListFile root None (drive self)) [])
    as [nums|e] eqn:Hloop; [|done].
  destruct (existing_versions_loop_ok _ _ _ Hloop) as (nums' & Hn & Hall & Hex).
  simpl in Hn. subst nums'.
  case_bool_decide as Hlen.
  - intros [= <-]. destruct nums; [|done]. split; [|by left].
    intros f piece Hin (Hpar & Htr & Hdir & Hpre) Hp.
    destruct (Hall f piece) as (n & _ & Hnn); [| |done|by apply elem_of_nil in Hnn].
    + by apply ListFile_all.
    + by rewrite Hdir, Hpre.
  - intros [= <-]. assert (nums ≠ []) as Hne by (by destruct nums). split.
    + intros f piece Hin (Hpar & Htr & Hdir & Hpre) Hp.
      destruct (Hall f piece) as (n & Hint & Hnn); [| |done|].
      * by apply ListFile_all.
      * by rewrite Hdir, Hpre.
      * exists n. split; [done|]. apply py_max_ge in Hnn. lia.
    + right. destruct (Hex _ (py_max_elem _ Hne)) as (f & piece & Hin & Hc & Hp & Hint).
      apply ListFile_all in Hin as (Hin & Hpar & Htr).
      apply andb_true_iff in Hc as [Hdir Hpre].
      exists f, piece. split; [done|]. split; [done|]. split; [done|].
      rewrite Hint. f_equal. lia.
Qed.

(** X15.  With the root folder known, the number [_get_next_version] returns is
    larger than the number of every live [version_<n>] folder directly under
    the root, and it is 0 or one more than the number of one of them. *)
Theorem get_next_version_above_all self root v :
  root_folder_id self = Some root →
  _get_next_version self = Ok v →
  (∀ f piece, f ∈ drive self → version_folder root f →
     split_on "_" (title f) !! 1%nat = Some piece →
     ∃ n, int_of_string piece = Some n ∧ n < v) ∧
  (v = 0 ∨
   ∃ f piece, f ∈ drive self ∧ version_folder root f ∧
     split_on "_" (title f) !! 1%nat = Some piece ∧
     int_of_string piece = Some (v - 1)).
Proof. apply get_next_version_ok. Qed.

Lemma get_next_version_above_all_witness :
  ∃ n, int_of_string "3" = Some n ∧ n < 4.
Proof.
  apply (proj1 (get_next_version_above_all
                  (mkGDriveLogger (Some "lightning_logs") sample_drive None
                     (Some (FileId 0)) None) (FileId 0) 4 eq_refl eq_refl)
           (mkDriveFile (FileId 2) "version_3" folder_mimeType [FileId 0] false)
           "3").
  - right. right. left.
  - split; [left|]. by vm_compute.
  - reflexivity.
Defined.

Example get_next_version_spaced_title :
  _get_next_version
    (mkGDriveLogger (Some "lightning_logs")
       (sample_drive ++
        [mkDriveFile (FileId 5) "version_ 8" folder_mimeType [FileId 0] false])
       None (Some (FileId 0)) None) = Ok 9.
Proof. by vm_compute. Qed.

(** X16.  A live folder under the root whose title starts with [version_] and
    goes on, up to the next underscore, with ASCII text that [int] does not
    take for an integer makes [_get_next_version] raise [ValueError]; it
    never raises anything else once the root is known.  (A title such as
    [version_ 8] does go on with an integer for [int].) *)
Theorem get_next_version_bad_title self root :
  root_folder_id self = Some root →
  (∀ e, _get_next_version self = Raise e → e = ValueError) ∧
  (∀ f piece, f ∈ drive self → version_folder root f →
     split_on "_" (title f) !! 1%nat = Some piece →
     is_ascii piece = true →
     int_of_string piece = None →
     _get_next_version self = Raise ValueError).
Proof.
  intros Hroot. unfold _get_next_version. rewrite Hroot.
  destruct (existing_versions_loop (ListFile root None (drive self)) [])
    as [nums|e] eqn:Hloop.
  - split; [by case_bool_decide|].
    intros f piece Hin (Hpar & Htr & Hdir & Hpre) Hp _ Hint.
    destruct (existing_versions_loop_ok _ _ _ Hloop) as (nums' & _ & Hall & _).
    destruct (Hall f piece) as (n & Hn & _); [| |done|congruence].
    + by apply ListFile_all.
    + by rewrite Hdir, Hpre.
  - destruct (existing_versions_loop_raises _ _ _ Hloop) as (-> & _).
    split; [by intros e [= <-] | done].
Qed.

Lemma get_next_version_bad_title_witness :
  _get_next_version
    (mkGDriveLogger (Some "lightning_logs")
       (sample_drive ++
        [mkDriveFile (FileId 5) "version_final" folder_mimeType [FileId 0] false])
       None (Some (FileId 0)) None) = Raise ValueError.
Proof.
  destruct (get_next_version_bad_title
              (mkGDriveLogger (Some "lightning_logs")
                 (sample_drive ++
                  [mkDriveFile (FileId 5) "version_final" folder_mimeType
                     [FileId 0] false])
                 None (Some (FileId 0)) None) (FileId 0) eq_refl) as [_ Hbad].
  apply (Hbad (mkDriveFile (FileId 5) "version_final" folder_mimeType
                 [FileId 0] false) "final").
  - apply elem_of_app. right. left.
  - split; [left|]. by vm_compute.
  - reflexivity.
  - reflexivity.
  - reflexivity.
Defined.

(** *** Folder names and integers *)

Lemma prefix_version rest : String.prefix "version_" ("version_" +:+ rest) = true.
Proof. by destruct rest. Qed.

(** *** [GDriveLogger.__init__] with an explicit version *)

Lemma GDriveLogger_init_explicit_closed name version0 self :
  version0 ≠ VersionNone →
  GDriveLogger_init name version0 self =
  (mkGDriveLogger (_name self)
     (_find_or_create_folder (version_folder_name version0)
        (_find_or_create_folder name RootId (drive self)).2
        (_find_or_create_folder name RootId (drive self)).1).1
     (Some version0)
     (Some (_find_or_create_folder name RootId (drive self)).2)
     (Some (_find_or_create_folder (version_folder_name version0)
              (_find_or_create_folder name RootId (drive self)).2
              (_find_or_create_folder name RootId (drive self)).1).2),
   Ok tt).
Proof.
  intros Hv. unfold GDriveLogger_init.
  destruct version0 as [|n|s]; [done|..]; cbn [set_version drive];
    destruct (_find_or_create_folder name RootId (drive self)) as [d1 root];
    cbn [set_drive set_root_folder_id drive fst snd version_folder_name];
    by destruct (_find_or_create_folder _ root d1) as [d2 log].
Qed.

Lemma find_or_create_folder_grows name parent drive :
  ∃ f, f ∈ (_find_or_create_folder name parent drive).1 ∧
       id f = (_find_or_create_folder name parent drive).2 ∧
       live_folder name parent f ∧
       drive `prefix_of` (_find_or_create_folder name parent drive).1 ∧
       (length (_find_or_create_folder name parent drive).1 ≤ length drive + 1)%nat.
Proof.
  destruct (find_or_create_folder_cases name parent drive)
    as [(f & Hin & Hlive & ->)|(Hnone & ->)]; cbn [fst snd].
  - exists f. do 3 (split; [done|]). split; [reflexivity | lia].
  - eexists. split; [apply elem_of_app; right; left|]. split; [done|].
    split; [apply created_folder_is_live|]. split; [by apply prefix_app_r|].
    rewrite length_app. simpl. lia.
Qed.

(** X17.  Constructed with an explicit version, the logger resolves its two
    folders without failing: afterwards the drive holds a live folder with
    the experiment name at the top level and, directly under it, a live
    folder named [version_<n>] for an integer version or by the version
    itself for a string; at most two folders were added, at the end of the
    drive, and the [version] property is the argument. *)
Theorem GDriveLogger_init_explicit name version0 self :
  version0 ≠ VersionNone →
  ∃ self' root log froot flog,
    GDriveLogger_init name version0 self = (self', Ok tt) ∧
    version self' = Ok version0 ∧
    root_folder_id self' = Some root ∧
    log_folder_id self' = Some log ∧
    froot ∈ drive self' ∧ id froot = root ∧ live_folder name RootId froot ∧
    flog ∈ drive self' ∧ id flog = log ∧
    live_folder (version_folder_name version0) root flog ∧
    drive self `prefix_of` drive self' ∧
    (length (drive self') ≤ length (drive self) + 2)%nat.
Proof.
  intros Hv. rewrite (GDriveLogger_init_explicit_closed _ _ _ Hv).
  destruct (find_or_create_folder_grows name RootId (drive self))
    as (froot & Hfr & Hidr & Hlr & Hpr & Hlenr).
  set (d1 := (_find_or_create_folder name RootId (drive self)).1) in *.
  set (root := (_find_or_create_folder name RootId (drive self)).2) in *.
  destruct (find_or_create_folder_grows (version_folder_name version0) root d1)
    as (flog & Hfl & Hidl & Hll & Hpl & Hlenl).
  eexists _, root, _, froot, flog. split; [reflexivity|].
  cbn [version _version root_folder_id log_folder_id drive].
  do 3 (split; [done|]). split.
  { destruct Hpl as [k ->]. apply elem_of_app. by left. }
  do 5 (split; [done|]). split; [by etrans | lia].
Qed.

Lemma GDriveLogger_init_explicit_witness :
  ∃ self' log flog,
    GDriveLogger_init "lightning_logs" (VersionInt 0)
      (GDriveLogger_new "lightning_logs" []) = (self', Ok tt) ∧
    log_folder_id self' = Some log ∧
    flog ∈ drive self' ∧ id flog = log ∧ title flog = "version_0".
Proof.
  destruct (GDriveLogger_init_explicit "lightning_logs" (VersionInt 0)
              (GDriveLogger_new "lightning_logs" []))
    as (self' & root & log & froot & flog & Hinit & _ & _ & Hlog & _ & _ & _ &
        Hfl & Hid & (_ & _ & Htitle & _) & _); [done|].
  exists self', log, flog. split; [exact Hinit|]. split; [exact Hlog|].
  split; [exact Hfl|]. split; [exact Hid | exact Htitle].
Defined.

Lemma find_or_create_folder_stable name parent drive fid extra :
  _find_or_create_folder name parent drive = (drive, fid) →
  _find_or_create_folder name parent (drive ++ extra) = (drive ++ extra, fid).
Proof.
  intros H.
  destruct (filter (λ f, is_dir f = true) (ListFile parent (Some name) drive))
    as [|f rest] eqn:E.
  - rewrite (find_or_create_folder_created _ _ _ E) in H.
    injection H as H _. apply (f_equal length) in H.
    rewrite length_app in H. simpl in H. lia.
  - rewrite (find_or_create_folder_found _ _ _ _ _ E) in H. injection H as <-.
    apply (find_or_create_folder_found _ _ _ f
             (rest ++ filter (λ f, is_dir f = true)
                        (ListFile parent (Some name) extra))).
    unfold ListFile in *. by rewrite !filter_app, E.
Qed.

(** X18.  Constructing the logger again for the same name and version on the
    drive the first construction left finds the same two folders and creates
    nothing. *)
Theorem GDriveLogger_init_again name version0 self self' :
  version0 ≠ VersionNone →
  GDriveLogger_init name version0 self = (self', Ok tt) →
  GDriveLogger_init name version0 self' = (self', Ok tt).
Proof.
  intros Hv. rewrite !(GDriveLogger_init_explicit_closed _ _ _ Hv).
  intros [= <-]. cbn [_name drive].
  set (r0 := _find_or_create_folder name RootId (drive self)).
  set (r1 := _find_or_create_folder (version_folder_name version0) r0.2 r0.1).
  assert (_find_or_create_folder name RootId r0.1 = (r0.1, r0.2)) as H0.
  { unfold r0. rewrite find_or_create_folder_idempotent.
    by destruct (_find_or_create_folder name RootId (drive self)). }
  assert (_find_or_create_folder (version_folder_name version0) r0.2 r1.1 =
          (r1.1, r1.2)) as H1.
  { unfold r1. rewrite find_or_create_folder_idempotent.
    by destruct (_find_or_create_folder _ r0.2 r0.1). }
  assert (_find_or_create_folder name RootId r1.1 = (r1.1, r0.2)) as H2.
  { destruct (find_or_create_folder_grows (version_folder_name version0) r0.2 r0.1)
      as (_ & _ & _ & _ & [extra Hex] & _). fold r1 in Hex. rewrite Hex.
    by apply find_or_create_folder_stable. }
  rewrite H2. cbn [fst snd]. by rewrite H1.
Qed.

Lemma GDriveLogger_init_again_witness :
  ∃ self',
    GDriveLogger_init "lightning_logs" (VersionStr "debug")
      (GDriveLogger_new "lightning_logs" sample_drive) = (self', Ok tt) ∧
    GDriveLogger_init "lightning_logs" (VersionStr "debug") self' = (self', Ok tt).
Proof.
  eexists. split; [vm_compute; reflexivity|].
  apply (GDriveLogger_init_again "lightning_logs" (VersionStr "debug")
           (GDriveLogger_new "lightning_logs" sample_drive));
    [done | vm_compute; reflexivity].
Defined.

(** X19.  The folder name given to integer version [n] is read back as [n]: after
    a construction with version [n], the automatic numbering (once it runs)
    returns a number larger than [n]. *)
Theorem next_version_after_explicit name n self self' v :
  GDriveLogger_init name (VersionInt n) self = (self', Ok tt) →
  _get_next_version self' = Ok v →
  n < v.
Proof.
  intros Hinit Hnext.
  rewrite (GDriveLogger_init_explicit_closed name (VersionInt n) self) in Hinit
    by done.
  injection Hinit as <-.
  set (r0 := _find_or_create_folder name RootId (drive self)) in *.
  destruct (find_or_create_folder_grows (version_folder_name (VersionInt n))
              r0.2 r0.1) as (flog & Hfl & _ & (Hdir & Htr & Htitle & Hpar) & _).
  match type of Hnext with
  | _get_next_version ?s = _ =>
      destruct (get_next_version_ok s r0.2 v eq_refl Hnext) as [Hall _]
  end.
  destruct (Hall flog (pretty n)) as (n' & Hint & Hlt).
  - exact Hfl.
  - split; [done|]. split; [done|]. split; [done|]. rewrite Htitle.
    apply prefix_version.
  - rewrite Htitle. cbn [version_folder_name].
    by rewrite split_on_version, split_on_pretty.
  - rewrite int_of_string_pretty in Hint. by injection Hint as <-.
Qed.

Lemma next_version_after_explicit_witness :
  ∃ self' v,
    GDriveLogger_init "lightning_logs" (VersionInt 12)
      (GDriveLogger_new "lightning_logs" sample_drive) = (self', Ok tt) ∧
    _get_next_version self' = Ok v ∧ 12 < v.
Proof.
  eexists _, _. split; [vm_compute; reflexivity|].
  split; [vm_compute; reflexivity|].
  eapply (next_version_after_explicit "lightning_logs" 12
            (GDriveLogger_new "lightning_logs" sample_drive));
    vm_compute; reflexivity.
Defined.

(** ** [log_hyperparams] *)

Lemma elem_of_rows_to_cells rows d :
  d ∈ rows_to_cells rows ↔
  ∃ i row, rows !! i = Some row ∧
           (d = mkCell (1 + Z.of_nat i) 1 row.1 ∨
            d = mkCell (1 + Z.of_nat i) 2 row.2).
Proof.
  unfold rows_to_cells. rewrite list_elem_of_join. split.
  - intros (l & Hd & Hl). apply elem_of_lookup_imap in Hl as (i & row & -> & Hi).
    exists i, row. split; [done|].
    apply elem_of_cons in Hd as [->|Hd]; [by left|].
    apply list_elem_of_singleton in Hd. by right.
  - intros (i & row & Hi & Hd).
    exists [mkCell (1 + Z.of_nat i) 1 row.1; mkCell (1 + Z.of_nat i) 2 row.2].
    split.
    + destruct Hd as [->| ->]; [left | right; left].
    + apply elem_of_lookup_imap. by exists i, row.
Qed.

Lemma length_rows_to_cells rows :
  length (rows_to_cells rows) = (2 * length rows)%nat.
Proof.
  unfold rows_to_cells.
  assert (∀ (f : nat → value * value → list Cell),
            (∀ i row, length (f i row) = 2%nat) →
            length (mjoin (imap f rows)) = (2 * length rows)%nat) as Hgen.
  { induction rows as [|row rows IH]; intros f Hf; [done|].
    rewrite imap_cons. cbn [mjoin list_join].
    rewrite length_app, Hf, IH; [simpl; lia|]. intros i r. apply Hf. }
  by apply Hgen.
Qed.

Lemma write_cells_lookup_other cs : ∀ (g : gmap (Z * Z) value) k,
  (∀ d, d ∈ cs → (cell_row d, cell_col d) ≠ k) →
  write_cells g cs !! k = g !! k.
Proof.
  induction cs as [|c cs IH]; intros g k Hk; [done|].
  unfold write_cells. cbn [foldl]. fold (write_cells (write_cell g c) cs).
  rewrite IH by (intros d Hd; apply Hk; by right).
  unfold write_cell. rewrite lookup_insert_ne; [done|]. apply Hk. left.
Qed.

(** X20.  On rank zero [log_hyperparams] sends one request, a write of the table
    of hyperparameters: the titles in row 1, then one row per parameter, in
    order, with its name in column A and its value in column B, as it is for
    a string or a number and as its [str] otherwise; no other cell changes.
    A namespace is written like the dictionary of its attributes, and on any
    other rank nothing happens. *)
Theorem log_hyperparams_table py_str params rank0 hws :
  let d := match params with ParamsDict d => d | ParamsNamespace a => a end in
  let hws' := (log_hyperparams py_str params rank0 hws).1 in
  (rank0 = 0 →
     (log_hyperparams py_str params rank0 hws).2 = Ok tt ∧
     (∃ cells, calls hws' = calls hws ++ [CallUpdate cells] ∧
               length cells = (2 * (length d + 1))%nat) ∧
     cell_at (grid hws') 1 1 = VStr "hyperparameter" ∧
     cell_at (grid hws') 1 2 = VStr "value" ∧
     (∀ i k v, d !! i = Some (k, v) →
        cell_at (grid hws') (Z.of_nat i + 2) 1 = VStr k ∧
        cell_at (grid hws') (Z.of_nat i + 2) 2 =
          (if is_str_int_float v then v else VStr (py_str v))) ∧
     (∀ r c, ¬ (1 ≤ r ≤ Z.of_nat (length d) + 1 ∧ 1 ≤ c ≤ 2) →
        grid hws' !! (r, c) = grid hws !! (r, c))) ∧
  (rank0 ≠ 0 → log_hyperparams py_str params rank0 hws = (hws, Ok tt)) ∧
  log_hyperparams py_str (ParamsNamespace d) rank0 hws =
    log_hyperparams py_str (ParamsDict d) rank0 hws.
Proof.
  intros d hws'. split; [|split].
  - intros ->. unfold hws', log_hyperparams. cbn [Z.eqb fst snd].
    set (rows := hparams_rows py_str params).
    assert (length rows = S (length d)) as Hlen
      by (unfold rows, hparams_rows; fold d; simpl; by rewrite length_fmap).
    assert (∀ i row c, rows !! i = Some row →
              (c = 1 ∧ cell_at (write_cells (grid hws) (rows_to_cells rows))
                         (1 + Z.of_nat i) 1 = row.1) ∨
              (c = 2 ∧ cell_at (write_cells (grid hws) (rows_to_cells rows))
                         (1 + Z.of_nat i) 2 = row.2) ∨ (c ≠ 1 ∧ c ≠ 2)) as Hcell.
    { intros i row c Hi.
      destruct (decide (c = 1)) as [->|H1]; [left; split; [done|]|].
      - pose (cl := mkCell (1 + Z.of_nat i) 1 row.1).
        change row.1 with (cell_value cl). unfold cell_at.
        rewrite (write_cells_lookup_unique _ _ cl); [done| |].
        + apply elem_of_rows_to_cells. exists i, row. split; [done | by left].
        + intros d' Hd' Hco.
          apply elem_of_rows_to_cells in Hd' as (j & row' & Hj & [->| ->]);
            simpl in Hco; [|by injection Hco].
          assert (j = i) as -> by (injection Hco; lia).
          unfold cl. congruence.
      - destruct (decide (c = 2)) as [->|H2]; [right; left; split; [done|] | by right; right].
        pose (cl := mkCell (1 + Z.of_nat i) 2 row.2).
        change row.2 with (cell_value cl). unfold cell_at.
        rewrite (write_cells_lookup_unique _ _ cl); [done| |].
        + apply elem_of_rows_to_cells. exists i, row. split; [done | by right].
        + intros d' Hd' Hco.
          apply elem_of_rows_to_cells in Hd' as (j & row' & Hj & [->| ->]);
            simpl in Hco; [by injection Hco|].
          assert (j = i) as -> by (injection Hco; lia).
          unfold cl. congruence. }
    split; [done|]. split.
    { eexists. split; [reflexivity|]. rewrite length_rows_to_cells, Hlen. lia. }
    cbn [ws_update grid].
    assert (rows !! 0%nat = Some (VStr "hyperparameter", VStr "value")) as H0
      by done.
    split; [by destruct (Hcell _ _ 1 H0) as [[_ ?]|[[? _]|[? _]]]|].
    split; [by destruct (Hcell _ _ 2 H0) as [[? _]|[[_ ?]|[_ ?]]]|].
    split.
    + intros i k v Hi.
      assert (rows !! S i =
              Some (VStr k, if is_str_int_float v then v else VStr (py_str v)))
        as Hrow.
      { unfold rows, hparams_rows. fold d. cbn [lookup list_lookup].
        exact (list_lookup_fmap_Some_2
                 (λ kv : string * value,
                    (VStr kv.1,
                     if is_str_int_float kv.2 then kv.2 else VStr (py_str kv.2)))
                 d i (k, v) Hi). }
      replace (Z.of_nat i + 2) with (1 + Z.of_nat (S i)) by lia. split.
      * by destruct (Hcell _ _ 1 Hrow) as [[_ ?]|[[? _]|[? _]]].
      * by destruct (Hcell _ _ 2 Hrow) as [[? _]|[[_ ?]|[_ ?]]].
    + intros r c Hout. apply write_cells_lookup_other. intros d' Hd' Hco.
      apply elem_of_rows_to_cells in Hd' as (j & row' & Hj & Hd').
      apply lookup_lt_Some in Hj. rewrite Hlen in Hj. apply Hout.
      destruct Hd' as [->| ->]; simpl in Hco; injection Hco as <- <-; lia.
  - intros Hrank. unfold log_hyperparams.
    by destruct (Z.eqb_spec rank0 0).
  - reflexivity.
Qed.

Lemma log_hyperparams_table_witness :
  let hws' := (log_hyperparams (λ _, "None")
                 (ParamsNamespace [("batch_size", VNum 32); ("resume", VNone)])
                 0 (mkWorksheet ∅ [])).1 in
  cell_at (grid hws') 2 1 = VStr "batch_size" ∧
  cell_at (grid hws') 2 2 = VNum 32 ∧
  cell_at (grid hws') 3 2 = VStr "None".
Proof.
  intros hws'.
  destruct (log_hyperparams_table (λ _, "None")
              (ParamsNamespace [("batch_size", VNum 32); ("resume", VNone)])
              0 (mkWorksheet ∅ [])) as [Hzero _].
  destruct (Hzero eq_refl) as (_ & _ & _ & _ & Hrows & _).
  destruct (Hrows 0%nat "batch_size" (VNum 32) eq_refl) as [Ha Hb].
  destruct (Hrows 1%nat "resume" VNone eq_refl) as [_ Hc].
  split; [exact Ha|]. split; [exact Hb | exact Hc].
Defined.

(** ** [Table.update] reads the header names only *)

Lemma staged_cells_ext r names row1 row2 : ∀ c,
  (∀ h, h ∈ names → dict_get h row1 = dict_get h row2) →
  staged_cells r c names row1 = staged_cells r c names row2.
Proof.
  induction names as [|h names IH]; intros c Hagree; [done|]. simpl.
  rewrite <- (Hagree h) by left. destruct (dict_get h row1); [|done].
  f_equal. apply IH. intros h' Hin. apply Hagree. by right.
Qed.

Lemma missing_key_ext names row1 row2 :
  (∀ h, h ∈ names → dict_get h row1 = dict_get h row2) →
  missing_key names row1 = missing_key names row2.
Proof.
  induction names as [|h names IH]; intros Hagree; [done|].
  rewrite !missing_key_cons, <- (Hagree h) by left.
  destruct (dict_get h row1); [|done].
  apply IH. intros h' Hin. apply Hagree. by right.
Qed.

(** X21.  [update] looks up the header names and nothing else: two rows that
    agree on the header names give the same table, the same request and the
    same outcome.  A value under any other key, such as the step handed to a
    table that has no step column, is dropped without notice. *)
Theorem Table_update_ignores_other_keys row1 row2 ws t :
  (∀ h, h ∈ _metrics_header t → dict_get h row1 = dict_get h row2) →
  Table_update row1 ws t = Table_update row2 ws t.
Proof.
  intros Hagree. rewrite !Table_update_spec.
  by rewrite (staged_cells_ext _ _ row1 row2), (missing_key_ext _ row1 row2).
Qed.

Lemma Table_update_ignores_other_keys_witness :
  Table_update [("loss", VNum 5); ("step", VNum 1)] (mkWorksheet ∅ [])
    (mkTable [] 1 4 ["loss"]) =
  Table_update [("loss", VNum 5); ("step", VNum 99)] (mkWorksheet ∅ [])
    (mkTable [] 1 4 ["loss"]).
Proof.
  apply Table_update_ignores_other_keys. intros h Hin.
  apply list_elem_of_singleton in Hin. by subst h.
Defined.
